(** * Equivariant denoising diffusion over protein backbones

    A shallow embedding of [model.py] (positional encoder, noise schedule,
    [EGNNLayer], [ProteinDiffusionModel.forward]) and of the two drivers'
    arithmetic ([train.py] forward noising, [sample.py] re-masking), with the
    properties of the specification stated over it.

    Numeric model.  The tensors of the program hold 32-bit floats; here every
    tensor entry is a real number and every operation is exact.  Integer
    tensors (time steps, residue indices) are [Z].  A tensor's leading axes
    (batch [b], residue [n], atom [a]) are index functions together with the
    sizes [B], [N], [A] that the code reads from [coords.shape]; the last
    axis is a [vec3] for coordinates and a [list R] for feature rows. *)

From Stdlib Require Import Reals ZArith List Bool Lia Lra Psatz.
From Stdlib Require String.
Import ListNotations.
Local Open Scope R_scope.
Set Warnings "-register-all".

(* ================================================================= *)
(** ** Small list helpers *)

(** [zip_with f xs ys]: elementwise combination of two rows (the shorter
    row decides the length; the tensor runtime demands equal lengths). *)
Fixpoint zip_with {X Y W : Type} (f : X -> Y -> W) (xs : list X) (ys : list Y)
  : list W :=
  match xs, ys with
  | x :: xs', y :: ys' => f x y :: zip_with f xs' ys'
  | _, _ => []
  end.

Definition sum_list (l : list R) : R := fold_right Rplus 0 l.

(* ================================================================= *)
(** ** The noise schedule ([ProteinDiffusionModel.__init__], lines 83-88) *)

Module Schedule.

(** [torch.linspace(start, end, steps)]: [steps] evenly spaced values from
    [start] to [end] inclusive; a single step yields [[start]]. *)
Definition linspace (start stop : R) (steps : nat) : list R :=
  match steps with
  | O => []
  | S O => [start]
  | S (S _) =>
      map (fun i => start + INR i * ((stop - start) / INR (steps - 1)))
          (seq 0 steps)
  end.

(** [torch.cumprod(l, dim=0)]: running products [l0, l0*l1, l0*l1*l2, ...]. *)
Fixpoint cumprod_from (acc : R) (l : list R) : list R :=
  match l with
  | [] => []
  | x :: t => (acc * x) :: cumprod_from (acc * x) t
  end.

Definition cumprod (l : list R) : list R :=
  match l with
  | [] => []
  | x :: t => x :: cumprod_from x t
  end.

Record noise_schedule : Type := mk_schedule
  { betas : list R;
    alphas : list R;
    alpha_cumprod : list R;
    alpha_cumprod_prev : list R }.

(** Lines 83-88.  [alpha_cumprod[:-1]] is [removelast]. *)
Definition make_schedule (beta_start beta_end : R) (diffusion_steps : nat)
  : noise_schedule :=
  let betas := linspace beta_start beta_end diffusion_steps in
  let alphas := map (fun b => 1 - b) betas in
  let alpha_cumprod := cumprod alphas in
  let alpha_cumprod_prev := 1 :: removelast alpha_cumprod in
  mk_schedule betas alphas alpha_cumprod alpha_cumprod_prev.

End Schedule.

(* ================================================================= *)
(** ** Three-dimensional vectors: the last axis of a coordinate tensor *)

Record vec3 : Type := mk3 { vx : R; vy : R; vz : R }.

Definition vzero : vec3 := mk3 0 0 0.
Definition vadd (u v : vec3) : vec3 := mk3 (vx u + vx v) (vy u + vy v) (vz u + vz v).
Definition vsub (u v : vec3) : vec3 := mk3 (vx u - vx v) (vy u - vy v) (vz u - vz v).
(** A tensor of trailing size 1 broadcast against a coordinate triple. *)
Definition vscale (k : R) (v : vec3) : vec3 := mk3 (k * vx v) (k * vy v) (k * vz v).
Definition vdiv (v : vec3) (k : R) : vec3 := mk3 (vx v / k) (vy v / k) (vz v / k).
Definition vec3_to_list (v : vec3) : list R := [vx v; vy v; vz v].

Fixpoint vsum_n (f : nat -> vec3) (n : nat) : vec3 :=
  match n with
  | O => vzero
  | S k => vadd (vsum_n f k) (f k)
  end.

(** A 3x3 matrix by rows, and the rigid motions used to state equivariance. *)
Record mat3 : Type := mk_mat3 { row1 : vec3; row2 : vec3; row3 : vec3 }.

Definition vdot (u v : vec3) : R := vx u * vx v + vy u * vy v + vz u * vz v.
Definition mat_apply (M : mat3) (v : vec3) : vec3 :=
  mk3 (vdot (row1 M) v) (vdot (row2 M) v) (vdot (row3 M) v).

Definition det3 (M : mat3) : R :=
  vx (row1 M) * (vy (row2 M) * vz (row3 M) - vz (row2 M) * vy (row3 M))
  - vy (row1 M) * (vx (row2 M) * vz (row3 M) - vz (row2 M) * vx (row3 M))
  + vz (row1 M) * (vx (row2 M) * vy (row3 M) - vy (row2 M) * vx (row3 M)).

(** A rotation: orthonormal rows and determinant one. *)
Definition is_rotation (M : mat3) : Prop :=
  vdot (row1 M) (row1 M) = 1 /\ vdot (row2 M) (row2 M) = 1 /\
  vdot (row3 M) (row3 M) = 1 /\ vdot (row1 M) (row2 M) = 0 /\
  vdot (row1 M) (row3 M) = 0 /\ vdot (row2 M) (row3 M) = 0 /\
  det3 M = 1.

(** Rotating, respectively translating, every atom of a [[N, A, 3]]
    coordinate tensor. *)
Definition rotate (M : mat3) (coords : nat -> nat -> vec3) : nat -> nat -> vec3 :=
  fun n a => mat_apply M (coords n a).

Definition translate (v : vec3) (coords : nat -> nat -> vec3) : nat -> nat -> vec3 :=
  fun n a => vadd (coords n a) v.

(* ================================================================= *)
(** ** The sinusoidal positional encoder (lines 6-34) *)

Module Encoder.

(** Line 25: [1.0 / (embed_size ** (2 * arange(embed_dim // 2) / embed_dim))].
    The power with a real exponent is [Rpower]. *)
Definition inv_freq (embed_dim : nat) (embed_size : R) : list R :=
  map (fun i => 1 / Rpower embed_size (2 * INR i / INR embed_dim))
      (seq 0 (Nat.div embed_dim 2)).

(** Lines 29-33 at one position [x] of the input tensor: [x[..., None]]
    broadcasts every entry against [inv_freq], so the encoder acts entry by
    entry and appends one axis. *)
Definition sinusoidal_positional_encoding
  (x : R) (embed_dim : nat) (embed_size : R) : list R :=
  let angles := map (fun f => x * PI * f) (inv_freq embed_dim embed_size) in
  let pos_embedding_sin := map sin angles in
  let pos_embedding_cos := map cos angles in
  pos_embedding_sin ++ pos_embedding_cos.

(** The same function on an input tensor with explicit leading axes of any
    rank: a tensor is a scalar or a stack of tensors. *)
Inductive tensor : Type :=
| Scalar (x : R)
| Stack (rows : list tensor).

Fixpoint has_shape (t : tensor) (shape : list nat) {struct t} : Prop :=
  match t, shape with
  | Scalar _, [] => True
  | Stack rows, n :: shape' =>
      length rows = n /\
      (fix all (l : list tensor) : Prop :=
         match l with
         | [] => True
         | r :: l' => has_shape r shape' /\ all l'
         end) rows
  | _, _ => False
  end.

Fixpoint encode_tensor (t : tensor) (embed_dim : nat) (embed_size : R) : tensor :=
  match t with
  | Scalar x => Stack (map Scalar (sinusoidal_positional_encoding x embed_dim embed_size))
  | Stack rows => Stack (map (fun r => encode_tensor r embed_dim embed_size) rows)
  end.

(** The sub-tensor at a path of leading indices. *)
Fixpoint get (t : tensor) (path : list nat) : option tensor :=
  match path with
  | [] => Some t
  | i :: path' =>
      match t with
      | Scalar _ => None
      | Stack rows =>
          match nth_error rows i with
          | Some r => get r path'
          | None => None
          end
      end
  end.

(** The frequencies as the specification writes them:
    [f_i = embed_size^(-2i/embed_dim)]. *)
Definition spec_freq (embed_dim : nat) (embed_size : R) (i : nat) : R :=
  Rpower embed_size (- (2 * INR i) / INR embed_dim).

End Encoder.

(* ================================================================= *)
(** ** Network building blocks ([torch.nn]) *)

Module NN.

(** [nn.Linear]: [y = x W^T + b], one row of [weight] per output. *)
Record Linear : Type := mk_linear { weight : list (list R); bias : list R }.

Definition dot (u v : list R) : R := sum_list (zip_with Rmult u v).

Definition linear (l : Linear) (x : list R) : list R :=
  zip_with (fun row b => dot x row + b) (weight l) (bias l).

(** [nn.SiLU]: [x * sigmoid(x)]. *)
Definition silu (x : R) : R := x * (1 / (1 + exp (- x))).

(** [nn.LayerNorm(output_nf)] with its default [eps = 1e-5] and affine
    parameters: biased variance over the feature axis. *)
Record LayerNorm : Type := mk_layer_norm { ln_weight : list R; ln_bias : list R }.

Definition ln_eps : R := 1 / 100000.

Definition layer_norm (ln : LayerNorm) (x : list R) : list R :=
  let n := INR (length x) in
  let mean := sum_list x / n in
  let var := sum_list (map (fun v => (v - mean) * (v - mean)) x) / n in
  let normed := map (fun v => (v - mean) / sqrt (var + ln_eps)) x in
  zip_with Rplus (zip_with Rmult normed (ln_weight ln)) (ln_bias ln).

(** Sum of feature rows over an axis of size [n] ([.sum(dim=2)]). *)
Fixpoint rows_sum (f : nat -> list R) (n : nat) : list R :=
  match n with
  | O => []
  | S k =>
      match k with
      | O => f O
      | S _ => zip_with Rplus (rows_sum f k) (f k)
      end
  end.

End NN.

(* ================================================================= *)
(** ** [EGNNLayer] (lines 148-244) *)

Module Egnn.
Import NN.

(** The learned parameters of one layer together with the two constructor
    arguments the forward pass reads.  [edge_mlp] is
    [Linear, SiLU, Linear, SiLU]; [node_mlp] and [coord_mlp] are
    [Linear, SiLU, Linear]; the last [coord_mlp] map has one output. *)
Record EGNNLayer : Type := mk_layer
  { edge_embed_dim : nat;
    max_len : R;
    edge_mlp_0 : Linear;
    edge_mlp_2 : Linear;
    node_mlp_0 : Linear;
    node_mlp_2 : Linear;
    node_norm : LayerNorm;
    coord_mlp_0 : Linear;
    coord_mlp_2 : Linear }.

Definition edge_mlp (L : EGNNLayer) (x : list R) : list R :=
  map silu (linear (edge_mlp_2 L) (map silu (linear (edge_mlp_0 L) x))).

Definition node_mlp (L : EGNNLayer) (x : list R) : list R :=
  linear (node_mlp_2 L) (map silu (linear (node_mlp_0 L) x)).

Definition coord_mlp (L : EGNNLayer) (x : list R) : list R :=
  linear (coord_mlp_2 L) (map silu (linear (coord_mlp_0 L) x)).

(** One batch element: [coords : [N, A, 3]], [node_features : [N, input_nf]],
    [atom_mask : [N, A]], [residue_indices : [N]]. *)
Section Sample.

Variable L : EGNNLayer.
Variables N A : nat.                      (* seq_len, num_atoms: line 204 *)
Variable coords : nat -> nat -> vec3.
Variable node_features : nat -> list R.
Variable atom_mask : nat -> nat -> R.
Variable residue_indices : nat -> Z.

(** Lines 207-209. *)
Definition rel_residue_indices (i j : nat) : Z :=
  (residue_indices i - residue_indices j)%Z.

Definition rel_residue_enc (i j : nat) : list R :=
  Encoder.sinusoidal_positional_encoding
    (IZR (rel_residue_indices i j)) (edge_embed_dim L) (max_len L).

(** Lines 212-213: pairwise difference, then the mean over the atom axis. *)
Definition directional_vectors (i j : nat) : vec3 :=
  vdiv (vsum_n (fun a => vsub (coords i a) (coords j a)) A) (INR A).

(** Lines 216-224. *)
Definition edge_features (i j : nat) : list R :=
  node_features i ++ node_features j ++ rel_residue_enc i j
    ++ vec3_to_list (directional_vectors i j).

(** Line 227. *)
Definition edge_messages (i j : nat) : list R := edge_mlp L (edge_features i j).

(** Lines 230-234. *)
Definition aggregated_messages (i : nat) : list R :=
  rows_sum (fun j => edge_messages i j) N.

Definition updated_node_features (i : nat) : list R :=
  layer_norm (node_norm L) (node_mlp L (node_features i ++ aggregated_messages i)).

(** Lines 237-239: the scalar gate of shape [[..., 1]] times the directional
    vector, summed over the neighbour axis. *)
Definition coord_gate (i j : nat) : R := hd 0 (coord_mlp L (edge_messages i j)).

Definition coord_updates (i : nat) : vec3 :=
  vsum_n (fun j => vscale (coord_gate i j) (directional_vectors i j)) N.

(** Line 242. *)
Definition updated_coords (i a : nat) : vec3 :=
  vadd (coords i a) (vscale (atom_mask i a) (coord_updates i)).

End Sample.

(** [EGNNLayer.forward] on a batch: every step above is independent per
    batch element. *)
Definition forward (L : EGNNLayer) (N A : nat)
  (coords : nat -> nat -> nat -> vec3) (node_features : nat -> nat -> list R)
  (atom_mask : nat -> nat -> nat -> R) (residue_indices : nat -> nat -> Z)
  : (nat -> nat -> nat -> vec3) * (nat -> nat -> list R) :=
  (fun b => updated_coords L N A (coords b) (node_features b) (atom_mask b)
              (residue_indices b),
   fun b => updated_node_features L N A (coords b) (node_features b)
              (residue_indices b)).

End Egnn.

(* ================================================================= *)
(** ** [ProteinDiffusionModel] (lines 37-145) *)

Module Diffusion.
Import Schedule.

(** [tensor.long()] on a float tensor: truncation toward zero. *)
Definition to_long (r : R) : Z :=
  if Rle_dec 0 r then Int_part r else (- Int_part (- r))%Z.

(** Reading one entry [schedule[i]] through an integer index tensor: an index
    in [[0, len)] reads that entry, an index in [[-len, 0)] counts from the
    end, anything else is the runtime's index error ([None]). *)
Definition tensor_index (l : list R) (i : Z) : option R :=
  let len := Z.of_nat (length l) in
  if ((0 <=? i) && (i <? len))%Z then nth_error l (Z.to_nat i)
  else if ((- len <=? i) && (i <? 0))%Z then nth_error l (Z.to_nat (len + i))
  else None.

(** Indexing with an index tensor of shape [[B]]: every entry must be in
    range. *)
Fixpoint tensor_index_all (l : list R) (idx : nat -> Z) (B : nat)
  : option (list R) :=
  match B with
  | O => Some []
  | S k =>
      match tensor_index_all l idx k, tensor_index l (idx k) with
      | Some vs, Some v => Some (vs ++ [v])
      | _, _ => None
      end
  end.

Record ProteinDiffusionModel : Type := mk_model
  { max_residues : nat;
    num_atoms : nat;
    diffusion_steps : nat;
    pos_embed_size : nat;
    hidden_size : nat;
    edge_embed_dim : nat;
    schedule : noise_schedule;
    egnn_layers : list Egnn.EGNNLayer }.

(** [__init__], lines 73-100.  The layers' initial parameters are drawn by
    the runtime; here they are the argument [params], one entry per layer,
    and the constructor fixes [edge_embed_dim] and [max_len] of each. *)
Definition init (max_residues diffusion_steps pos_embed_size hidden_size
                 edge_embed_dim num_egnn_layers num_atoms : nat)
  (beta_start beta_end : R) (params : nat -> Egnn.EGNNLayer)
  : ProteinDiffusionModel :=
  mk_model max_residues num_atoms diffusion_steps pos_embed_size hidden_size
    edge_embed_dim
    (make_schedule beta_start beta_end diffusion_steps)
    (map (fun k =>
            let p := params k in
            Egnn.mk_layer edge_embed_dim (INR max_residues)
              (Egnn.edge_mlp_0 p) (Egnn.edge_mlp_2 p)
              (Egnn.node_mlp_0 p) (Egnn.node_mlp_2 p) (Egnn.node_norm p)
              (Egnn.coord_mlp_0 p) (Egnn.coord_mlp_2 p))
         (seq 0 num_egnn_layers)).

Section Forward.

Variable m : ProteinDiffusionModel.
Variables B N A : nat.       (* batch_size, seq_len, num_atoms: line 119 *)
Variable coords : nat -> nat -> nat -> vec3.
Variable residue_indices : nat -> nat -> Z.
Variable times : nat -> Z.
Variable atom_mask : nat -> nat -> nat -> R.

(** Lines 122-124. *)
Definition residue_embedding (b n : nat) : list R :=
  Encoder.sinusoidal_positional_encoding
    (IZR (residue_indices b n)) (hidden_size m) (INR (max_residues m)).

(** Line 127: the name [times] is rebound to the normalised time. *)
Definition times_norm (b : nat) : R :=
  IZR (times b) / INR (diffusion_steps m).

(** Lines 128-129. *)
Definition time_embedding (b : nat) : list R :=
  Encoder.sinusoidal_positional_encoding (times_norm b) (hidden_size m) 10000.

(** Line 132. *)
Definition node_features (b n : nat) : list R :=
  zip_with Rplus (residue_embedding b n) (time_embedding b).

(** Lines 135-139: the layers in order, threading coordinates and features. *)
Definition run_layers (layers : list Egnn.EGNNLayer)
  : (nat -> nat -> nat -> vec3) * (nat -> nat -> list R) :=
  fold_left
    (fun st layer => Egnn.forward layer N A (fst st) (snd st) atom_mask residue_indices)
    layers (coords, node_features).

Definition curr_coords : nat -> nat -> nat -> vec3 :=
  fst (run_layers (egnn_layers m)).

(** Line 142: the index is [times.long()] of the rebound, normalised [times]. *)
Definition schedule_index (b : nat) : Z := to_long (times_norm b).

Definition cum_a_t : option (list R) :=
  tensor_index_all (alpha_cumprod (schedule m)) schedule_index B.

(** Line 143, for a given cumulative alpha and a given layer-stack output. *)
Definition noise_extraction (a : R) (input final : vec3) : vec3 :=
  vdiv (vsub input (vscale (sqrt a) final)) (sqrt (1 - a)).

Definition predicted_noise (cum : list R) (b n a : nat) : vec3 :=
  noise_extraction (nth b cum 0) (coords b n a) (curr_coords b n a).

(** Line 145. *)
Definition forward : option (nat -> nat -> nat -> vec3) :=
  match cum_a_t with
  | Some cum => Some (fun b n a => vscale (atom_mask b n a) (predicted_noise cum b n a))
  | None => None
  end.

End Forward.

End Diffusion.

(* ================================================================= *)
(** ** The drivers' arithmetic *)

Module Trainer.

(** [train.py], line 145: [model.alpha_cumprod[t]] with the sampled integer
    time step itself. *)
Definition alpha_cumprod_at (m : Diffusion.ProteinDiffusionModel) (t : Z)
  : option R :=
  Diffusion.tensor_index (Schedule.alpha_cumprod (Diffusion.schedule m)) t.

(** [train.py], line 146, at one coordinate entry: [alpha_cumprod] is the
    schedule value selected on line 145. *)
Definition noisy_coords (alpha_cumprod : R) (coords noise : vec3) : vec3 :=
  vadd (vscale (sqrt alpha_cumprod) coords) (vscale (sqrt (1 - alpha_cumprod)) noise).

End Trainer.

Module Sampler.

(** [sample.py], line 63: [coords * mask + (1 - mask) * coords], the mask
    broadcast over the coordinate axis. *)
Definition remask (coords : nat -> nat -> nat -> vec3)
  (atom_mask : nat -> nat -> nat -> R) : nat -> nat -> nat -> vec3 :=
  fun b n a =>
    vadd (vscale (atom_mask b n a) (coords b n a))
         (vscale (1 - atom_mask b n a) (coords b n a)).

End Sampler.

(* ================================================================= *)
(** ** Concrete inputs used in the examples below *)

Module Examples.
Import NN.

(** A layer with [input_nf = hidden_nf = output_nf = 1] and
    [edge_embed_dim = 2]: the first edge map reads the x component of the
    directional vector (column 4 of the 7 edge features), the other maps
    pass their input on. *)
Definition layer_x : Egnn.EGNNLayer :=
  Egnn.mk_layer 2 2
    (mk_linear [[0; 0; 0; 0; 1; 0; 0]] [0]) (mk_linear [[1]] [0])
    (mk_linear [[0; 0]] [0]) (mk_linear [[0]] [0])
    (mk_layer_norm [1] [0])
    (mk_linear [[1]] [0]) (mk_linear [[1]] [0]).

(** Two residues of one atom: residue 0 at (0,1,0), residue 1 at the origin. *)
Definition coords_y : nat -> nat -> vec3 :=
  fun n _ => match n with O => mk3 0 1 0 | S _ => vzero end.

Definition features_0 : nat -> list R := fun _ => [0].
Definition mask_ones : nat -> nat -> R := fun _ _ => 1.
Definition residues_0_1 : nat -> Z := fun n => Z.of_nat n.

(** The quarter turn about the z axis: (x, y, z) goes to (-y, x, z). *)
Definition rot_z : mat3 := mk_mat3 (mk3 0 (-1) 0) (mk3 1 0 0) (mk3 0 0 1).

(** The gate that [layer_x] computes on an edge whose directional vector
    has x component -1. *)
Definition gate_rot : R := silu (silu (silu (-1))).

(** A model with two diffusion steps and no EGNN layer:
    [beta_start = 0.36], [beta_end = 0.4375], so that
    [alpha_cumprod = [0.64, 0.36]]. *)
Definition two_step_model : Diffusion.ProteinDiffusionModel :=
  Diffusion.init 1 2 2 2 2 0 1 (36 / 100) (4375 / 10000) (fun _ => layer_x).

(** A batch of one residue with one atom at (6,6,6), fully unmasked. *)
Definition coords_6 : nat -> nat -> nat -> vec3 := fun _ _ _ => mk3 6 6 6.
Definition residues_0 : nat -> nat -> Z := fun _ _ => 0%Z.
Definition mask_all : nat -> nat -> nat -> R := fun _ _ _ => 1.

End Examples.

(* ================================================================= *)
(** ** Tensors as shared objects: [forward] over a heap

    To state what a call leaves untouched, tensors live in a heap and the
    program passes references.  An out-of-place operation allocates its
    result; an in-place one ([write]) replaces the tensor at a reference. *)

Module Store.

Inductive value : Type :=
| VCoords (c : nat -> nat -> nat -> vec3)       (* [B, N, A, 3] *)
| VFeatures (h : nat -> nat -> list R)           (* [B, N, F] *)
| VMask (k : nat -> nat -> nat -> R)             (* [B, N, A] *)
| VIndices (r : nat -> nat -> Z)                 (* [B, N], integer *)
| VTimes (t : nat -> Z)                          (* [B], integer *)
| VBatch (t : nat -> R)                          (* [B], float *)
| VBatchRows (e : nat -> list R)                 (* [B, F] *)
| VRow (l : list R).                             (* one axis *)

Definition heap : Type := list value.
Definition ref : Type := nat.

(** Computations that thread the heap and may raise. *)
Definition M (X : Type) : Type := heap -> option (X * heap).

Definition ret {X} (x : X) : M X := fun h => Some (x, h).
Definition fail {X} : M X := fun _ => None.
Definition bind {X Y} (c : M X) (k : X -> M Y) : M Y :=
  fun h => match c h with
           | Some (x, h') => k x h'
           | None => None
           end.

Notation "x <- c ;; k" := (bind c (fun x => k))
  (at level 61, c at next level, right associativity).

Definition alloc (v : value) : M ref := fun h => Some (length h, h ++ [v]).

Definition read (r : ref) : M value :=
  fun h => match nth_error h r with
           | Some v => Some (v, h)
           | None => None
           end.

(** In-place update of the tensor at [r]. *)
Definition write (r : ref) (v : value) : M unit :=
  fun h => if (r <? length h)%nat
           then Some (tt, firstn r h ++ v :: skipn (S r) h)
           else None.

Definition read_coords (r : ref) : M (nat -> nat -> nat -> vec3) :=
  v <- read r ;; match v with VCoords c => ret c | _ => fail end.
Definition read_features (r : ref) : M (nat -> nat -> list R) :=
  v <- read r ;; match v with VFeatures h => ret h | _ => fail end.
Definition read_mask (r : ref) : M (nat -> nat -> nat -> R) :=
  v <- read r ;; match v with VMask k => ret k | _ => fail end.
Definition read_indices (r : ref) : M (nat -> nat -> Z) :=
  v <- read r ;; match v with VIndices i => ret i | _ => fail end.
Definition read_times (r : ref) : M (nat -> Z) :=
  v <- read r ;; match v with VTimes t => ret t | _ => fail end.
Definition read_batch (r : ref) : M (nat -> R) :=
  v <- read r ;; match v with VBatch t => ret t | _ => fail end.
Definition read_batch_rows (r : ref) : M (nat -> list R) :=
  v <- read r ;; match v with VBatchRows e => ret e | _ => fail end.
Definition read_row (r : ref) : M (list R) :=
  v <- read r ;; match v with VRow l => ret l | _ => fail end.

(** [h'] keeps every tensor of [h] at its reference and may hold more. *)
Definition extends (h h' : heap) : Prop := exists ext, h' = h ++ ext.

(** A computation that only allocates. *)
Definition grows {X} (c : M X) : Prop :=
  forall h x h', c h = Some (x, h') -> extends h h'.

(** [c] returns from [h] with a result and a heap satisfying [Q]. *)
Definition returns {X} (c : M X) (Q : X -> heap -> Prop) (h : heap) : Prop :=
  exists x h', c h = Some (x, h') /\ Q x h'.

(** [sample.py], lines 32-33: a fresh mask that is then updated in place. *)
Definition backbone_mask (backbone_indices : list nat) : M ref :=
  atom_mask <- alloc (VMask (fun _ _ _ => 0)) ;;
  _ <- write atom_mask
         (VMask (fun _ _ a => if existsb (Nat.eqb a) backbone_indices then 1 else 0)) ;;
  ret atom_mask.

(** The references a model object holds to its schedule tensors. *)
Record schedule_refs : Type := mk_refs
  { betas_ref : ref;
    alphas_ref : ref;
    alpha_cumprod_ref : ref;
    alpha_cumprod_prev_ref : ref }.

(** [EGNNLayer.forward]: reads its four arguments; every tensor operation
    in it is out of place, and the two results are new tensors. *)
Definition layer_forward (L : Egnn.EGNNLayer) (N A : nat)
  (coords node_features atom_mask residue_indices : ref) : M (ref * ref) :=
  c <- read_coords coords ;;
  h <- read_features node_features ;;
  k <- read_mask atom_mask ;;
  r <- read_indices residue_indices ;;
  updated_coords <- alloc (VCoords (fst (Egnn.forward L N A c h k r))) ;;
  updated_node_features <- alloc (VFeatures (snd (Egnn.forward L N A c h k r))) ;;
  ret (updated_coords, updated_node_features).

(** Lines 138-139: the loop rebinds [curr_coords] and [node_features]. *)
Fixpoint run_layers (layers : list Egnn.EGNNLayer) (N A : nat)
  (curr_coords node_features atom_mask residue_indices : ref) : M (ref * ref) :=
  match layers with
  | [] => ret (curr_coords, node_features)
  | L :: rest =>
      p <- layer_forward L N A curr_coords node_features atom_mask residue_indices ;;
      run_layers rest N A (fst p) (snd p) atom_mask residue_indices
  end.

(** [ProteinDiffusionModel.forward], statement by statement. *)
Definition forward (m : Diffusion.ProteinDiffusionModel) (s : schedule_refs)
  (B N A : nat) (coords residue_indices times atom_mask : ref) : M ref :=
  (* lines 122-124 *)
  r <- read_indices residue_indices ;;
  residue_embedding <-
    alloc (VFeatures (fun b n =>
             Encoder.sinusoidal_positional_encoding (IZR (r b n))
               (Diffusion.hidden_size m) (INR (Diffusion.max_residues m)))) ;;
  (* line 127: a new tensor, bound to the local name [times] *)
  t <- read_times times ;;
  times <- alloc (VBatch (fun b => IZR (t b) / INR (Diffusion.diffusion_steps m))) ;;
  (* lines 128-129 *)
  tn <- read_batch times ;;
  time_embedding <-
    alloc (VBatchRows (fun b =>
             Encoder.sinusoidal_positional_encoding (tn b)
               (Diffusion.hidden_size m) 10000)) ;;
  (* line 132 *)
  re <- read_features residue_embedding ;;
  te <- read_batch_rows time_embedding ;;
  node_features <- alloc (VFeatures (fun b n => zip_with Rplus (re b n) (te b))) ;;
  (* line 135: [coords.clone()] *)
  c <- read_coords coords ;;
  curr_coords <- alloc (VCoords c) ;;
  (* lines 138-139 *)
  p <- run_layers (Diffusion.egnn_layers m) N A curr_coords node_features
         atom_mask residue_indices ;;
  (* line 142 *)
  acp <- read_row (alpha_cumprod_ref s) ;;
  tn <- read_batch times ;;
  match Diffusion.tensor_index_all acp (fun b => Diffusion.to_long (tn b)) B with
  | None => fail
  | Some cum =>
      cum_a_t <- alloc (VRow cum) ;;
      (* line 143 *)
      c <- read_coords coords ;;
      final <- read_coords (fst p) ;;
      cum <- read_row cum_a_t ;;
      predicted_noise <-
        alloc (VCoords (fun b n a =>
                 Diffusion.noise_extraction (nth b cum 0) (c b n a) (final b n a))) ;;
      (* line 145 *)
      pn <- read_coords predicted_noise ;;
      k <- read_mask atom_mask ;;
      alloc (VCoords (fun b n a => vscale (k b n a) (pn b n a)))
  end.

(** A heap whose first eight tensors are the caller's four arguments and
    the model's four schedule tensors. *)
Definition initial_heap (m : Diffusion.ProteinDiffusionModel)
  (coords : nat -> nat -> nat -> vec3) (residue_indices : nat -> nat -> Z)
  (times : nat -> Z) (atom_mask : nat -> nat -> nat -> R) : heap :=
  [ VCoords coords; VIndices residue_indices; VTimes times; VMask atom_mask;
    VRow (Schedule.betas (Diffusion.schedule m));
    VRow (Schedule.alphas (Diffusion.schedule m));
    VRow (Schedule.alpha_cumprod (Diffusion.schedule m));
    VRow (Schedule.alpha_cumprod_prev (Diffusion.schedule m)) ].

Definition initial_refs : schedule_refs := mk_refs 4%nat 5%nat 6%nat 7%nat.

End Store.

(* ================================================================= *)
(** ** [sample_protein_backbone] ([sample.py], lines 5-76)

    The Gaussian draws of [torch.randn] and [torch.randn_like] are inputs:
    [init_noise] is the draw of line 28 and [step_noise t] the draw of line 56
    in the iteration of time step [t]. *)

Module SamplerLoop.

(** Line 25. *)
Definition backbone_indices : list nat := [0; 1; 2; 4]%nat.

(** Lines 32-33: zeros of shape [[1, max_residues, num_atoms]], then ones in
    the backbone columns.  The index assignment raises when a backbone
    column lies outside [num_atoms].  (This is the behaviour for
    [max_residues >= 1]; with no residue there is no entry to write.) *)
Definition backbone_atom_mask (num_atoms : nat)
  : option (nat -> nat -> nat -> R) :=
  if forallb (fun i => (i <? num_atoms)%nat) backbone_indices
  then Some (fun _ _ a =>
               if existsb (Nat.eqb a) backbone_indices then 1 else 0)
  else None.

(** [torch.clamp(x, min, max)], entry by entry. *)
Definition clamp (lo hi x : R) : R := Rmin (Rmax x lo) hi.

Definition vclamp (lo hi : R) (v : vec3) : vec3 :=
  mk3 (clamp lo hi (vx v)) (clamp lo hi (vy v)) (clamp lo hi (vz v)).

Section Sampler.

Variable model : Diffusion.ProteinDiffusionModel.
Variable max_residues : nat.
Variables init_scale noise_scale : R.
Variable init_noise : nat -> nat -> nat -> vec3.
Variable step_noise : nat -> nat -> nat -> nat -> vec3.

(** Line 29: [arange(max_residues).unsqueeze(0)]. *)
Definition residue_indices : nat -> nat -> Z := fun _ n => Z.of_nat n.

(** Lines 40-66, one iteration of the loop at time step [t]. *)
Definition step (atom_mask : nat -> nat -> nat -> R) (t : nat)
  (coords : nat -> nat -> nat -> vec3) : option (nat -> nat -> nat -> vec3) :=
  match Diffusion.forward model 1 max_residues (Diffusion.num_atoms model)
          coords residue_indices (fun _ => Z.of_nat t) atom_mask with
  | None => None
  | Some predicted_noise =>
      match Diffusion.tensor_index
              (Schedule.alpha_cumprod_prev (Diffusion.schedule model)) (Z.of_nat t),
            Diffusion.tensor_index
              (Schedule.alpha_cumprod (Diffusion.schedule model)) (Z.of_nat t) with
      | Some alpha_t_prev, Some alpha_t =>
          let mean_coords := fun b n a =>
            vdiv (vsub (vscale (sqrt alpha_t_prev) (coords b n a))
                       (vscale (sqrt (1 - alpha_t_prev)) (predicted_noise b n a)))
                 (sqrt alpha_t) in
          let z := fun b n a =>
            if (0 <? t)%nat then vscale noise_scale (step_noise t b n a)
            else vzero in
          let coords := fun b n a => vadd (mean_coords b n a) (z b n a) in
          let coords := Sampler.remask coords atom_mask in
          Some (fun b n a => vclamp (-10) 10 (coords b n a))
      | _, _ => None
      end
  end.

(** Line 39: [for t in range(diffusion_steps - 1, -1, -1)]; [loop k] runs
    the time steps [k - 1, ..., 0]. *)
Fixpoint loop (atom_mask : nat -> nat -> nat -> R) (k : nat)
  (coords : nat -> nat -> nat -> vec3) : option (nat -> nat -> nat -> vec3) :=
  match k with
  | O => Some coords
  | S t =>
      match step atom_mask t coords with
      | Some coords' => loop atom_mask t coords'
      | None => None
      end
  end.

(** The whole function; the result has shape [[max_residues, num_atoms, 3]]
    (line 74 drops the batch axis). *)
Definition sample_protein_backbone (diffusion_steps : nat)
  : option (nat -> nat -> vec3) :=
  let num_atoms := Diffusion.num_atoms model in
  let coords := fun b n a => vscale init_scale (init_noise b n a) in
  match backbone_atom_mask num_atoms with
  | None => None
  | Some atom_mask =>
      match loop atom_mask diffusion_steps coords with
      | None => None
      | Some coords => Some (fun n a => vscale (atom_mask 0%nat n a) (coords 0%nat n a))
      end
  end.

End Sampler.

End SamplerLoop.

(** A model with five atom slots per residue, two diffusion steps and no
    EGNN layer, and constant draws for the sampler. *)
Module SamplerExamples.

Definition five_atom_model : Diffusion.ProteinDiffusionModel :=
  Diffusion.init 3 2 2 2 2 0 5 (36 / 100) (4375 / 10000)
    (fun _ => Examples.layer_x).

Definition four_atom_model : Diffusion.ProteinDiffusionModel :=
  Diffusion.init 3 2 2 2 2 0 4 (36 / 100) (4375 / 10000)
    (fun _ => Examples.layer_x).

Definition init_noise : nat -> nat -> nat -> vec3 := fun _ _ _ => mk3 100 0 (-100).
Definition step_noise : nat -> nat -> nat -> nat -> vec3 := fun _ _ _ _ => mk3 1 1 1.

End SamplerExamples.

(* ================================================================= *)
(** ** The training script ([train.py]) *)

Module Training.
Import String.

(** *** The masked loss of one batch (lines 136-156) *)

(** [sum_n f n] is [f 0 + ... + f (n-1)]; [tensor_sum] is [.sum()] of a
    tensor of shape [[B, N, A]]. *)
Fixpoint sum_n (f : nat -> R) (n : nat) : R :=
  match n with
  | O => 0
  | S k => sum_n f k + f k
  end.

Definition tensor_sum (B N A : nat) (f : nat -> nat -> nat -> R) : R :=
  sum_n (fun b => sum_n (fun n => sum_n (fun a => f b n a) A) N) B.

(** [nn.MSELoss(reduction='none')] at one coordinate triple. *)
Definition squared_error (p q : vec3) : vec3 :=
  mk3 ((vx p - vx q) * (vx p - vx q)) ((vy p - vy q) * (vy p - vy q))
      ((vz p - vz q) * (vz p - vz q)).

(** Lines 152-153: [(loss_fn(predicted_noise, noise) * atom_mask.unsqueeze(-1)).sum()]. *)
Definition masked_loss (B N A : nat) (predicted_noise noise : nat -> nat -> nat -> vec3)
  (atom_mask : nat -> nat -> nat -> R) : R :=
  tensor_sum B N A (fun b n a =>
    let l := vscale (atom_mask b n a)
               (squared_error (predicted_noise b n a) (noise b n a)) in
    vx l + vy l + vz l).

(** One batch of the loader together with the draws made for it: [t] is the
    draw of line 141 and [noise] the draw of line 144. *)
Record batch : Type := mk_batch
  { batch_size : nat;
    seq_len : nat;
    atoms : nat;
    residue_index : nat -> nat -> Z;
    atom_mask : nat -> nat -> nat -> R;
    atom_positions : nat -> nat -> nat -> vec3;
    t : nat -> Z;
    noise : nat -> nat -> nat -> vec3 }.

(** Lines 136-156 for one batch: the loss and the number of valid atoms
    that are added to [epoch_loss] and [total_samples]. *)
Definition train_batch (model : Diffusion.ProteinDiffusionModel) (bt : batch)
  : option (R * R) :=
  match Diffusion.tensor_index_all
          (Schedule.alpha_cumprod (Diffusion.schedule model)) (t bt)
          (batch_size bt) with
  | None => None
  | Some alpha_cumprod =>
      let noisy_coords := fun b n a =>
        Trainer.noisy_coords (nth b alpha_cumprod 0) (atom_positions bt b n a)
          (noise bt b n a) in
      match Diffusion.forward model (batch_size bt) (seq_len bt) (atoms bt)
              noisy_coords (residue_index bt) (t bt) (atom_mask bt) with
      | None => None
      | Some predicted_noise =>
          Some (masked_loss (batch_size bt) (seq_len bt) (atoms bt)
                  predicted_noise (noise bt) (atom_mask bt),
                tensor_sum (batch_size bt) (seq_len bt) (atoms bt) (atom_mask bt))
      end
  end.

(** *** Optimizer state and model state *)

(** A parameter group of the optimizer: its learning rate, the number of
    parameters it holds and its other options. *)
Record param_group : Type := mk_group
  { lr : R; n_params : nat; options : list (string * R) }.

Record optimizer : Type := mk_optimizer
  { param_groups : list param_group; moments : list (list R) }.

(** [optimizer.state_dict()] is the pair of [param_groups] and per-parameter
    state, here the record itself.  [optimizer.load_state_dict] refuses a
    state with another number of groups or another group size. *)
Definition optimizer_load_state_dict (o sd : optimizer) : option optimizer :=
  if list_eq_dec Nat.eq_dec (map n_params (param_groups o))
                            (map n_params (param_groups sd))
  then Some sd else None.

(** The learned tensors of a model are those of its layers; their shapes
    decide whether a state is accepted by [model.load_state_dict]. *)
Definition linear_shape (l : NN.Linear) : list nat * nat :=
  (map (@List.length R) (NN.weight l), List.length (NN.bias l)).

Definition layer_shape (L : Egnn.EGNNLayer) : list (list nat * nat) * (nat * nat) :=
  ([ linear_shape (Egnn.edge_mlp_0 L); linear_shape (Egnn.edge_mlp_2 L);
     linear_shape (Egnn.node_mlp_0 L); linear_shape (Egnn.node_mlp_2 L);
     linear_shape (Egnn.coord_mlp_0 L); linear_shape (Egnn.coord_mlp_2 L) ],
   (List.length (NN.ln_weight (Egnn.node_norm L)),
    List.length (NN.ln_bias (Egnn.node_norm L)))).

Definition shapes_eq_dec :
  forall s1 s2 : list (list (list nat * nat) * (nat * nat)), {s1 = s2} + {s1 <> s2}.
Proof. repeat decide equality. Defined.

Definition state_dict (model : Diffusion.ProteinDiffusionModel)
  : list Egnn.EGNNLayer := Diffusion.egnn_layers model.

(** A layer keeps its own constructor arguments and takes the tensors of
    the saved layer. *)
Definition adopt (own saved : Egnn.EGNNLayer) : Egnn.EGNNLayer :=
  Egnn.mk_layer (Egnn.edge_embed_dim own) (Egnn.max_len own)
    (Egnn.edge_mlp_0 saved) (Egnn.edge_mlp_2 saved)
    (Egnn.node_mlp_0 saved) (Egnn.node_mlp_2 saved) (Egnn.node_norm saved)
    (Egnn.coord_mlp_0 saved) (Egnn.coord_mlp_2 saved).

(** [model.load_state_dict(sd)] (strict): accepted when the saved state has
    the same layers with the same tensor shapes. *)
Definition load_state_dict (model : Diffusion.ProteinDiffusionModel)
  (sd : list Egnn.EGNNLayer) : option Diffusion.ProteinDiffusionModel :=
  if shapes_eq_dec (map layer_shape (Diffusion.egnn_layers model))
                   (map layer_shape sd)
  then Some (Diffusion.mk_model
               (Diffusion.max_residues model) (Diffusion.num_atoms model)
               (Diffusion.diffusion_steps model) (Diffusion.pos_embed_size model)
               (Diffusion.hidden_size model) (Diffusion.edge_embed_dim model)
               (Diffusion.schedule model)
               (zip_with adopt (Diffusion.egnn_layers model) sd))
  else None.

(** *** Checkpoints (lines 22-71) *)

(** The dictionary written by [save_checkpoint]: it always has these four
    keys. *)
Record checkpoint : Type := mk_checkpoint
  { epoch : nat;
    model_state_dict : list Egnn.EGNNLayer;
    optimizer_state_dict : optimizer;
    train_losses : list R }.

(** The files written by [torch.save], by path. *)
Definition files : Type := string -> option checkpoint.

Definition torch_save (obj : checkpoint) (path : string) (fs : files) : files :=
  fun p => if String.eqb p path then Some obj else fs p.

(** Lines 33-39. *)
Definition save_checkpoint (epoch : nat) (model : Diffusion.ProteinDiffusionModel)
  (opt : optimizer) (train_losses : list R) (checkpoint_path : string)
  (fs : files) : files :=
  torch_save (mk_checkpoint epoch (state_dict model) opt train_losses)
    checkpoint_path fs.

(** What [load_checkpoint] can raise.  When the optimizer's state is
    refused the model has already taken the saved tensors. *)
Inductive load_error : Type :=
| FileNotFound
| ModelStateRefused
| OptimizerStateRefused (model_after : Diffusion.ProteinDiffusionModel).

(** Lines 63-65: every group's learning rate is overwritten. *)
Definition set_lr (new_lr : R) (o : optimizer) : optimizer :=
  mk_optimizer
    (map (fun g => mk_group new_lr (n_params g) (options g)) (param_groups o))
    (moments o).

(** Lines 58-71.  The model and the optimizer are updated in place: the
    result carries their new values beside the returned
    [(epoch, train_losses)]. *)
Definition load_checkpoint (fs : files) (checkpoint_path : string)
  (model : Diffusion.ProteinDiffusionModel) (opt : option optimizer)
  (new_lr : option R)
  : (Diffusion.ProteinDiffusionModel * option optimizer * (nat * list R))
    + load_error :=
  match fs checkpoint_path with
  | None => inr FileNotFound
  | Some ck =>
      match load_state_dict model (model_state_dict ck) with
      | None => inr ModelStateRefused
      | Some model' =>
          match opt with
          | None => inl (model', None, (epoch ck, train_losses ck))
          | Some o =>
              match optimizer_load_state_dict o (optimizer_state_dict ck) with
              | None => inr (OptimizerStateRefused model')
              | Some o' =>
                  let o'' := match new_lr with
                             | Some r => set_lr r o'
                             | None => o'
                             end in
                  inl (model', Some o'', (epoch ck, train_losses ck))
              end
          end
      end
  end.

(** *** The training loop (lines 121-172)

    The gradient step of lines 159-161 is the argument [optimizer_step];
    [train_loader e] is the list of batches of epoch [e] with their draws. *)

Record state : Type := mk_state
  { st_model : Diffusion.ProteinDiffusionModel;
    st_optimizer : optimizer;
    st_losses : list R;
    st_files : files }.

Section Loop.

Variable optimizer_step :
  Diffusion.ProteinDiffusionModel -> optimizer -> batch ->
  Diffusion.ProteinDiffusionModel * optimizer.
Variable train_loader : nat -> list batch.
Variable checkpoint_path : string.

(** Lines 135-161. *)
Fixpoint run_batches (model : Diffusion.ProteinDiffusionModel) (opt : optimizer)
  (batches : list batch) (epoch_loss total_samples : R)
  : option (Diffusion.ProteinDiffusionModel * optimizer * R * R) :=
  match batches with
  | [] => Some (model, opt, epoch_loss, total_samples)
  | bt :: rest =>
      match train_batch model bt with
      | None => None
      | Some (loss, valid) =>
          let (model', opt') := optimizer_step model opt bt in
          run_batches model' opt' rest (epoch_loss + loss) (total_samples + valid)
      end
  end.

(** Lines 130-172, one epoch; the division of line 164 raises on zero. *)
Definition run_epoch (e : nat) (st : state) : option state :=
  match run_batches (st_model st) (st_optimizer st) (train_loader e) 0 0 with
  | None => None
  | Some (model, opt, epoch_loss, total_samples) =>
      if Req_dec_T total_samples 0 then None
      else
        let avg_train_loss := epoch_loss / total_samples in
        let losses := st_losses st ++ [avg_train_loss] in
        let fs := if ((e + 1) mod 10 =? 0)%nat
                  then save_checkpoint e model opt losses checkpoint_path
                         (st_files st)
                  else st_files st in
        Some (mk_state model opt losses fs)
  end.

Fixpoint run_epochs (epochs : list nat) (st : state) : option state :=
  match epochs with
  | [] => Some st
  | e :: rest =>
      match run_epoch e st with
      | Some st' => run_epochs rest st'
      | None => None
      end
  end.

(** [range(a, b)]. *)
Definition range (a b : nat) : list nat := seq a (b - a).

(** Lines 121-129: [train_losses] starts empty; with [resume_training] and
    an existing checkpoint file the epoch, the losses, the model and the
    optimizer come from the file, with the learning rate [1e-7]. *)
Definition training (resume_training : bool) (num_epochs : nat)
  (model : Diffusion.ProteinDiffusionModel) (opt : optimizer) (fs : files)
  : option state :=
  match (if resume_training then fs checkpoint_path else None) with
  | None => run_epochs (range 0 num_epochs) (mk_state model opt [] fs)
  | Some _ =>
      match load_checkpoint fs checkpoint_path model (Some opt)
              (Some (1 / 10000000)) with
      | inl (model', Some opt', (start_epoch, losses)) =>
          run_epochs (range start_epoch num_epochs)
            (mk_state model' opt' losses fs)
      | _ => None
      end
  end.

End Loop.

End Training.

(** A small training set-up: the value of [checkpoint_path] (line 82), an
    optimizer with one empty parameter group at the script's learning rate
    (the two-step model has no layer, hence no parameter), a gradient step
    that leaves both unchanged, and a loader of one batch per epoch. *)
Module TrainingExamples.
Import String.

Definition checkpoint_path : string := "checkpoint.pth".

Definition adam : Training.optimizer :=
  Training.mk_optimizer [Training.mk_group (1 / 100000) 0 []] [].

Definition no_step (model : Diffusion.ProteinDiffusionModel)
  (opt : Training.optimizer) (bt : Training.batch) := (model, opt).

Definition one_batch : Training.batch :=
  Training.mk_batch 1 1 1 Examples.residues_0 Examples.mask_all
    Examples.coords_6 (fun _ => 1%Z) (fun _ _ _ => mk3 3 3 3).

Definition loader : nat -> list Training.batch := fun _ => [one_batch].

Definition no_files : Training.files := fun _ => None.

End TrainingExamples.

(* ================================================================= *)
(** ** Well-shaped models

    The functions above compute on rows of any length, where the tensor
    runtime raises a shape error.  A model as [__init__] builds it with even
    [hidden_size] and [edge_embed_dim] has the shapes below (lines 166-186
    with [input_nf = hidden_nf = output_nf = hidden_size]), and every forward
    pass is then free of shape errors; statements about when a call returns
    are made for such models. *)

Module Shapes.

Definition linear_has_shape (l : NN.Linear) (out_features in_features : nat)
  : Prop :=
  map (@length R) (NN.weight l) = repeat in_features out_features /\
  length (NN.bias l) = out_features.

Definition layer_well_shaped (hidden edge_dim : nat) (L : Egnn.EGNNLayer) : Prop :=
  Egnn.edge_embed_dim L = edge_dim /\
  linear_has_shape (Egnn.edge_mlp_0 L) hidden (2 * hidden + edge_dim + 3) /\
  linear_has_shape (Egnn.edge_mlp_2 L) hidden hidden /\
  linear_has_shape (Egnn.node_mlp_0 L) hidden (hidden + hidden) /\
  linear_has_shape (Egnn.node_mlp_2 L) hidden hidden /\
  length (NN.ln_weight (Egnn.node_norm L)) = hidden /\
  length (NN.ln_bias (Egnn.node_norm L)) = hidden /\
  linear_has_shape (Egnn.coord_mlp_0 L) hidden hidden /\
  linear_has_shape (Egnn.coord_mlp_2 L) 1 hidden.

Definition model_well_shaped (m : Diffusion.ProteinDiffusionModel) : Prop :=
  Nat.even (Diffusion.hidden_size m) = true /\
  Nat.even (Diffusion.edge_embed_dim m) = true /\
  Forall (layer_well_shaped (Diffusion.hidden_size m) (Diffusion.edge_embed_dim m))
    (Diffusion.egnn_layers m).

End Shapes.

(* ================================================================= *)
(** ** Where float32 agrees with exact arithmetic

    Tensors hold reals here, where the code computes in float32, and a real
    division or power is total where the code yields [inf] or [nan].  The
    conditions below delimit the inputs on which the two differ by rounding
    only; statements about values and about returning calls are made under
    them.

    [exact_time_steps T]: every time step that [forward] accepts lies below
    [2^24] in absolute value, so [times.float()] is exact, and a quotient by
    [T] that is not an integer stays at least [1/T >= 2^-12] away from the
    next integer, more than half the spacing of float32 below 4096; the
    division of line 127 followed by [.long()] on line 142 is then the
    truncated exact quotient.

    [representable_schedule]: [1.0 - beta] does not absorb the smallest beta
    (the spacing of float32 below 1 is [2^-24]) and does not round to 0 at
    the largest, [linspace] keeps its order, and the last cumulative product
    stays far above the smallest positive normal number [2^-126].

    [positive_bases]: the bases of the two position encodings that depend
    on the model, [max_residues] (line 123) and each layer's [max_len]
    (line 209), are positive, so no frequency is [inf] or [nan]. *)

Module Float32.

Definition exact_time_steps (diffusion_steps : nat) : Prop :=
  (Z.of_nat diffusion_steps * (Z.of_nat diffusion_steps + 1) <= 2 ^ 24)%Z.

Definition representable_schedule (beta_start beta_end : R)
  (diffusion_steps : nat) : Prop :=
  / 2 ^ 20 <= beta_start /\
  beta_end <= 1 - / 2 ^ 20 /\
  (Z.of_nat diffusion_steps <= 2 ^ 20)%Z /\
  / 2 ^ 100 <= (1 - beta_end) ^ diffusion_steps.


End Float32.

(* ================================================================= *)
(** ** A model with parameters

    [loss.backward()] (line 160) needs a loss that depends on a parameter and
    [optim.Adam(model.parameters())] (line 101) a non-empty parameter list:
    both hold exactly when the model has at least one layer, whose fourteen
    tensors are its parameters (the schedule arrays are plain attributes). *)

Module Trainable.

Definition layer_parameters : nat := 14.

Definition trainable (m : Diffusion.ProteinDiffusionModel) : Prop :=
  Shapes.model_well_shaped m /\ Diffusion.egnn_layers m <> [].

(** [optim.Adam(model.parameters(), lr=learning_rate)]: one parameter group
    over all parameters, no moments yet. *)
Definition adam (m : Diffusion.ProteinDiffusionModel) (learning_rate : R)
  : Training.optimizer :=
  Training.mk_optimizer
    [Training.mk_group learning_rate
       (layer_parameters * length (Diffusion.egnn_layers m)) []] [].

(** A layer of [hidden_size = 2] and [edge_embed_dim = 2] with zero weights,
    and the model of one such layer over two diffusion steps. *)
Definition zeros (out_features in_features : nat) : NN.Linear :=
  NN.mk_linear (repeat (repeat 0 in_features) out_features) (repeat 0 out_features).

Definition layer_0 : Egnn.EGNNLayer :=
  Egnn.mk_layer 2 1 (zeros 2 9) (zeros 2 2) (zeros 2 4) (zeros 2 2)
    (NN.mk_layer_norm [1; 1] [0; 0]) (zeros 2 2) (zeros 1 2).

Definition one_layer_model : Diffusion.ProteinDiffusionModel :=
  Diffusion.init 1 2 2 2 2 1 1 (36 / 100) (4375 / 10000) (fun _ => layer_0).

End Trainable.

(* ================================================================= *)
(** * Properties *)

(** ** The noise schedule *)

Module ScheduleFacts.
Import Schedule.

Lemma linspace_length start stop steps :
  length (linspace start stop steps) = steps.
Proof.
  destruct steps as [|[|k]]; simpl; auto.
  now rewrite length_map, length_seq.
Qed.

Lemma linspace_nth start stop steps i :
  (i < steps)%nat -> (2 <= steps)%nat ->
  nth i (linspace start stop steps) 0 =
  start + INR i * ((stop - start) / INR (steps - 1)).
Proof.
  intros Hi Hs.
  destruct steps as [|[|k]]; try lia.
  unfold linspace.
  set (f := fun i0 : nat => _).
  rewrite (nth_indep _ 0 (f 0%nat)) by now rewrite length_map, length_seq.
  rewrite map_nth, seq_nth by lia.
  reflexivity.
Qed.

Lemma linspace_head start stop steps :
  (1 <= steps)%nat -> nth 0 (linspace start stop steps) 0 = start.
Proof.
  intros Hs.
  destruct steps as [|[|k]]; try lia; [reflexivity|].
  rewrite linspace_nth by lia. simpl INR at 1. lra.
Qed.

Lemma linspace_last start stop steps :
  (2 <= steps)%nat -> nth (steps - 1) (linspace start stop steps) 0 = stop.
Proof.
  intros Hs.
  rewrite linspace_nth by lia.
  assert (0 < INR (steps - 1)) by (apply lt_0_INR; lia).
  field. lra.
Qed.

Lemma linspace_bounds start stop steps i :
  start <= stop -> (i < steps)%nat ->
  start <= nth i (linspace start stop steps) 0 <= stop.
Proof.
  intros Hle Hi.
  destruct (Nat.eq_dec steps 1) as [->|Hne].
  - replace i with 0%nat by lia. simpl. lra.
  - rewrite linspace_nth by lia.
    assert (Hd : 0 < INR (steps - 1)) by (apply lt_0_INR; lia).
    assert (Hi' : 0 <= INR i <= INR (steps - 1)).
    { split; [apply pos_INR | apply le_INR; lia]. }
    set (d := INR (steps - 1)) in *. set (x := INR i) in *.
    assert (Hq : 0 <= x / d <= 1).
    { split.
      - apply Rmult_le_pos; [lra | left; now apply Rinv_0_lt_compat].
      - apply (Rmult_le_reg_r d); [lra|]. unfold Rdiv.
        rewrite Rmult_assoc, Rinv_l by lra. lra. }
    replace (x * ((stop - start) / d)) with ((x / d) * (stop - start))
      by (field; lra).
    nra.
Qed.

Lemma linspace_mono start stop steps i j :
  start <= stop -> (i <= j)%nat -> (j < steps)%nat ->
  nth i (linspace start stop steps) 0 <= nth j (linspace start stop steps) 0.
Proof.
  intros Hle Hij Hj.
  destruct (Nat.eq_dec steps 1) as [->|Hne].
  - replace i with 0%nat by lia. replace j with 0%nat by lia. lra.
  - rewrite !linspace_nth by lia.
    assert (Hd : 0 < INR (steps - 1)) by (apply lt_0_INR; lia).
    assert (Hx : INR i <= INR j) by (apply le_INR; lia).
    assert (0 <= (stop - start) / INR (steps - 1)).
    { apply Rmult_le_pos; [lra | left; now apply Rinv_0_lt_compat]. }
    nra.
Qed.

Lemma cumprod_from_length acc l : length (cumprod_from acc l) = length l.
Proof. revert acc; induction l; intros; simpl; auto. Qed.

Lemma cumprod_length l : length (cumprod l) = length l.
Proof. destruct l; simpl; auto using cumprod_from_length. Qed.

Lemma cumprod_from_step l : forall acc i,
  (S i < length l)%nat ->
  nth (S i) (cumprod_from acc l) 0 =
  nth i (cumprod_from acc l) 0 * nth (S i) l 0.
Proof.
  induction l as [|x l IH]; intros acc i Hi; simpl in *; [lia|].
  destruct i as [|i].
  - destruct l as [|y l]; simpl in *; [lia | reflexivity].
  - apply IH. lia.
Qed.

(** The recurrence of the running product. *)
Lemma cumprod_step l i :
  (S i < length l)%nat ->
  nth (S i) (cumprod l) 0 = nth i (cumprod l) 0 * nth (S i) l 0.
Proof.
  destruct l as [|x l]; simpl; [lia|]. intros Hi.
  destruct i as [|i].
  - destruct l as [|y l]; simpl in *; [lia | reflexivity].
  - apply cumprod_from_step. lia.
Qed.

Lemma cumprod_head l : nth 0 (cumprod l) 0 = nth 0 l 0.
Proof. destruct l; reflexivity. Qed.

Lemma removelast_length {X} (l : list X) :
  length (removelast l) = (length l - 1)%nat.
Proof.
  induction l as [|x [|y l] IH]; simpl in *; auto. rewrite IH. lia.
Qed.

Section ValidSchedule.

Variables beta_start beta_end : R.
Variable diffusion_steps : nat.
Hypothesis Hstart : 0 < beta_start.
Hypothesis Horder : beta_start <= beta_end.
Hypothesis Hend : beta_end < 1.

Let s := make_schedule beta_start beta_end diffusion_steps.

Lemma betas_length : length (betas s) = diffusion_steps.
Proof. apply linspace_length. Qed.

Lemma alphas_length : length (alphas s) = diffusion_steps.
Proof. unfold s; simpl. now rewrite length_map, linspace_length. Qed.

Lemma alpha_cumprod_length : length (alpha_cumprod s) = diffusion_steps.
Proof. unfold s; simpl. now rewrite cumprod_length, length_map, linspace_length. Qed.

Lemma alphas_nth i :
  (i < diffusion_steps)%nat ->
  nth i (alphas s) 0 = 1 - nth i (betas s) 0.
Proof.
  intros Hi. unfold s; simpl.
  rewrite (nth_indep _ 0 ((fun b => 1 - b) 0))
    by now rewrite length_map, linspace_length.
  now rewrite map_nth.
Qed.

Lemma alphas_range i :
  (i < diffusion_steps)%nat -> 0 < nth i (alphas s) 0 < 1.
Proof.
  intros Hi. rewrite alphas_nth by assumption.
  pose proof (linspace_bounds beta_start beta_end diffusion_steps i Horder Hi).
  unfold s; simpl. lra.
Qed.

Lemma alpha_cumprod_range i :
  (i < diffusion_steps)%nat -> 0 < nth i (alpha_cumprod s) 0 < 1.
Proof.
  induction i as [|i IH]; intros Hi.
  - unfold s at 1; simpl alpha_cumprod. rewrite cumprod_head.
    apply (alphas_range 0 Hi).
  - unfold s at 1; simpl alpha_cumprod.
    rewrite cumprod_step by (rewrite length_map, linspace_length; lia).
    specialize (IH ltac:(lia)).
    pose proof (alphas_range (S i) Hi) as Ha.
    unfold s in IH, Ha; simpl in IH, Ha. nra.
Qed.

Lemma alpha_cumprod_step_down i :
  (S i < diffusion_steps)%nat ->
  nth (S i) (alpha_cumprod s) 0 < nth i (alpha_cumprod s) 0.
Proof.
  intros Hi.
  pose proof (alpha_cumprod_range i ltac:(lia)) as Hc.
  pose proof (alphas_range (S i) Hi) as Ha.
  unfold s in *; simpl in *.
  rewrite cumprod_step by (rewrite length_map, linspace_length; lia).
  nra.
Qed.

Lemma alpha_cumprod_decreasing i j :
  (i < j)%nat -> (j < diffusion_steps)%nat ->
  nth j (alpha_cumprod s) 0 < nth i (alpha_cumprod s) 0.
Proof.
  induction j as [|j IH]; intros Hij Hj; [lia|].
  destruct (Nat.eq_dec i j) as [->|Hne].
  - now apply alpha_cumprod_step_down.
  - apply Rlt_trans with (nth j (alpha_cumprod s) 0).
    + now apply alpha_cumprod_step_down.
    + apply IH; lia.
Qed.

End ValidSchedule.

End ScheduleFacts.

(** ** C5: the schedule invariants *)

Import Schedule.

(** C5, as stated, fails at a single diffusion step: [linspace] with one
    step yields only [beta_start], so with [beta_start < beta_end] the betas
    do not reach [beta_end]. *)
Lemma schedule_single_step_misses_beta_end :
  let s := make_schedule (1 / 10) (2 / 10) 1 in
  0 < 1 / 10 /\ 1 / 10 <= 2 / 10 /\ 2 / 10 < 1 /\ (1 >= 1)%nat /\
  betas s = [1 / 10] /\
  nth (1 - 1) (betas s) 0 <> 2 / 10.
Proof.
  simpl. repeat split; try lra; try lia.
Qed.

(** The lower bound of a representable schedule is positive. *)
Lemma representable_schedule_betas (beta_start beta_end : R) (diffusion_steps : nat) :
  Float32.representable_schedule beta_start beta_end diffusion_steps ->
  0 < beta_start /\ beta_end < 1.
Proof.
  intros (Hs & He & _).
  assert (H : 0 < / 2 ^ 20) by (apply Rinv_0_lt_compat, pow_lt; lra).
  lra.
Qed.

(** The schedule of the training configuration ([train.py], lines 78-80) is
    representable. *)
Lemma training_schedule_representable :
  Float32.representable_schedule (1 / 10000) (2 / 100) 1000.
Proof.
  assert (H20 : 2 ^ 20 = 1048576) by (simpl; lra).
  unfold Float32.representable_schedule. rewrite H20.
  repeat split; try lra; try (vm_compute; discriminate).
Qed.

(** C5 (amended): for a representable schedule with
    [beta_start <= beta_end] and
    [diffusion_steps >= 1], the four schedule arrays have length
    [diffusion_steps]; [betas] is monotone non-decreasing, starts at
    [beta_start], stays within [[beta_start, beta_end]] and ends at [beta_end]
    when [diffusion_steps >= 2] (with one step it is [[beta_start]]);
    [alpha_cumprod] is strictly decreasing with all values in (0,1];
    [alpha_cumprod[0] = 1 - beta_start]; [alpha_cumprod_prev[0] = 1]. *)
Theorem schedule_invariants (beta_start beta_end : R) (diffusion_steps : nat) :
  Float32.representable_schedule beta_start beta_end diffusion_steps ->
  beta_start <= beta_end ->
  (1 <= diffusion_steps)%nat ->
  let s := make_schedule beta_start beta_end diffusion_steps in
  (length (betas s) = diffusion_steps /\
   length (alphas s) = diffusion_steps /\
   length (alpha_cumprod s) = diffusion_steps /\
   length (alpha_cumprod_prev s) = diffusion_steps) /\
  (forall i j, (i <= j)%nat -> (j < diffusion_steps)%nat ->
     nth i (betas s) 0 <= nth j (betas s) 0) /\
  nth 0 (betas s) 0 = beta_start /\
  (forall i, (i < diffusion_steps)%nat ->
     beta_start <= nth i (betas s) 0 <= beta_end) /\
  ((2 <= diffusion_steps)%nat -> nth (diffusion_steps - 1) (betas s) 0 = beta_end) /\
  (diffusion_steps = 1%nat -> betas s = [beta_start]) /\
  (forall i j, (i < j)%nat -> (j < diffusion_steps)%nat ->
     nth j (alpha_cumprod s) 0 < nth i (alpha_cumprod s) 0) /\
  (forall i, (i < diffusion_steps)%nat ->
     0 < nth i (alpha_cumprod s) 0 <= 1) /\
  nth 0 (alpha_cumprod s) 0 = 1 - beta_start /\
  nth 0 (alpha_cumprod_prev s) 0 = 1.
Proof.
  intros Hrep Ho Hn s.
  destruct (representable_schedule_betas _ _ _ Hrep) as [Hs He].
  repeat match goal with |- _ /\ _ => split end.
  - apply ScheduleFacts.betas_length.
  - apply ScheduleFacts.alphas_length.
  - apply ScheduleFacts.alpha_cumprod_length.
  - unfold s; simpl. rewrite ScheduleFacts.removelast_length.
    rewrite ScheduleFacts.cumprod_length, length_map, ScheduleFacts.linspace_length.
    lia.
  - intros i j Hij Hj. now apply ScheduleFacts.linspace_mono.
  - now apply ScheduleFacts.linspace_head.
  - intros i Hi. now apply ScheduleFacts.linspace_bounds.
  - intros H2. now apply ScheduleFacts.linspace_last.
  - intros ->. reflexivity.
  - intros i j Hij Hj. now apply ScheduleFacts.alpha_cumprod_decreasing.
  - intros i Hi.
    pose proof (ScheduleFacts.alpha_cumprod_range beta_start beta_end
                  diffusion_steps Hs Ho He i Hi) as H.
    fold s in H. lra.
  - unfold s; simpl alpha_cumprod. rewrite ScheduleFacts.cumprod_head.
    pose proof (ScheduleFacts.alphas_nth beta_start beta_end diffusion_steps 0) as H.
    simpl in H. rewrite H by lia.
    now rewrite ScheduleFacts.linspace_head.
  - reflexivity.
Qed.

(** The training configuration ([train.py], lines 78-80) satisfies the
    hypotheses of [schedule_invariants]. *)
Lemma schedule_invariants_witness :
  let s := make_schedule (1 / 10000) (2 / 100) 1000 in
  length (alpha_cumprod s) = 1000%nat /\
  nth 0 (alpha_cumprod s) 0 = 1 - 1 / 10000 /\
  nth (1000 - 1) (betas s) 0 = 2 / 100.
Proof.
  intros s.
  destruct (schedule_invariants (1 / 10000) (2 / 100) 1000
              training_schedule_representable ltac:(lra) ltac:(lia))
    as ((_ & _ & Hlen & _) & _ & _ & _ & Hlast & _ & _ & _ & Hfirst & _).
  split; [exact Hlen | split; [exact Hfirst | apply Hlast; lia]].
Defined.

(** ** The positional encoder *)

Module EncoderFacts.
Import Encoder.

Lemma inv_freq_length d s : length (inv_freq d s) = Nat.div d 2.
Proof. unfold inv_freq. now rewrite length_map, length_seq. Qed.

Lemma encoding_length x d s :
  length (sinusoidal_positional_encoding x d s) = (2 * Nat.div d 2)%nat.
Proof.
  unfold sinusoidal_positional_encoding.
  rewrite length_app, !length_map, inv_freq_length. lia.
Qed.

(** The code's reciprocal of a power is the specification's negative power. *)
Lemma inv_freq_spec d s :
  inv_freq d s = map (spec_freq d s) (seq 0 (Nat.div d 2)).
Proof.
  unfold inv_freq, spec_freq. apply map_ext. intros i.
  replace (- (2 * INR i) / INR d) with (- (2 * INR i / INR d))
    by (unfold Rdiv; ring).
  rewrite Rpower_Ropp. unfold Rdiv. ring.
Qed.

Lemma encoding_spec x d s :
  sinusoidal_positional_encoding x d s =
  map (fun i => sin (x * PI * spec_freq d s i)) (seq 0 (Nat.div d 2)) ++
  map (fun i => cos (x * PI * spec_freq d s i)) (seq 0 (Nat.div d 2)).
Proof.
  unfold sinusoidal_positional_encoding.
  rewrite inv_freq_spec, !map_map. reflexivity.
Qed.

Lemma map_const_seq {X} (f : nat -> X) (c : X) n : forall st,
  (forall i, f i = c) -> map f (seq st n) = repeat c n.
Proof.
  induction n as [|n IH]; intros st Hf; simpl; auto.
  now rewrite Hf, IH.
Qed.

Lemma encoding_zero d s :
  sinusoidal_positional_encoding 0 d s =
  repeat 0 (Nat.div d 2) ++ repeat 1 (Nat.div d 2).
Proof.
  rewrite encoding_spec. f_equal; apply map_const_seq; intros i;
    rewrite !Rmult_0_l; [apply sin_0 | apply cos_0].
Qed.

Lemma even_half d : Nat.even d = true -> (2 * Nat.div d 2)%nat = d.
Proof.
  intros H. apply Nat.even_spec in H. destruct H as [k ->].
  rewrite (Nat.mul_comm 2 k), Nat.div_mul by lia. lia.
Qed.

Lemma odd_half d : Nat.odd d = true -> (2 * Nat.div d 2)%nat = (d - 1)%nat.
Proof.
  intros H. apply Nat.odd_spec in H. destruct H as [k ->].
  replace (2 * k + 1)%nat with (1 + k * 2)%nat by lia.
  rewrite Nat.div_add by lia. simpl. lia.
Qed.

(** Induction over tensors with the hypothesis for every row of a stack. *)
Lemma tensor_induction (P : tensor -> Prop) :
  (forall x, P (Scalar x)) ->
  (forall rows, Forall P rows -> P (Stack rows)) ->
  forall t, P t.
Proof.
  intros Hs Hk.
  fix IH 1. intros [x | rows].
  - apply Hs.
  - apply Hk. induction rows as [|r rows IHrows]; constructor.
    + apply IH.
    + exact IHrows.
Qed.

Lemma has_shape_stack rows n sh :
  has_shape (Stack rows) (n :: sh) <->
  length rows = n /\ Forall (fun r => has_shape r sh) rows.
Proof.
  simpl. split; intros [Hl Hall]; split; auto.
  - clear Hl. induction rows as [|r rows IH]; constructor; destruct Hall; auto.
  - clear Hl. induction Hall; simpl; auto.
Qed.

Lemma has_shape_row x d s :
  has_shape (Stack (map Scalar (sinusoidal_positional_encoding x d s)))
            [(2 * Nat.div d 2)%nat].
Proof.
  apply has_shape_stack. split.
  - now rewrite length_map, encoding_length.
  - apply Forall_forall. intros r Hr. apply in_map_iff in Hr.
    destruct Hr as (y & <- & _). exact I.
Qed.

Lemma encode_tensor_shape d s : forall t sh,
  has_shape t sh -> has_shape (encode_tensor t d s) (sh ++ [(2 * Nat.div d 2)%nat]).
Proof.
  induction t as [x | rows IH] using tensor_induction; intros sh Hsh.
  - destruct sh; [|contradiction]. apply has_shape_row.
  - destruct sh as [|n sh]; [contradiction|].
    apply has_shape_stack in Hsh. destruct Hsh as [Hl Hall].
    simpl app. cbn [encode_tensor]. apply has_shape_stack. split.
    + now rewrite length_map.
    + apply Forall_forall. intros r Hr. apply in_map_iff in Hr.
      destruct Hr as (r0 & <- & Hin).
      rewrite Forall_forall in IH, Hall. apply IH; auto.
Qed.

Lemma encode_tensor_get d s : forall t path x,
  get t path = Some (Scalar x) ->
  get (encode_tensor t d s) path =
  Some (Stack (map Scalar (sinusoidal_positional_encoding x d s))).
Proof.
  induction t as [y | rows IH] using tensor_induction; intros path x Hg.
  - destruct path; simpl in Hg; [|discriminate]. injection Hg as ->. reflexivity.
  - destruct path as [|i path]; simpl in Hg; [discriminate|].
    cbn [encode_tensor get]. rewrite nth_error_map.
    destruct (nth_error rows i) as [r|] eqn:Hr; [|discriminate].
    simpl. rewrite Forall_forall in IH. apply IH; auto.
    eapply nth_error_In; eauto.
Qed.

End EncoderFacts.

(** C7: for an even [embed_dim >= 2] and a positive base [embed_size] (a
    base [<= 0] makes a frequency [inf] or [nan] in the code) the encoder
    appends one axis of width
    [embed_dim] to the input shape; along it, every input entry [x] becomes
    [sin (x * pi * f_i)] for [i] in [[0, embed_dim/2)] followed by
    [cos (x * pi * f_i)], with [f_i = embed_size^(-2i/embed_dim)]; position 0
    is encoded as zeros followed by ones. *)
Theorem positional_encoding_even (embed_dim : nat) (embed_size : R) :
  Nat.even embed_dim = true -> (2 <= embed_dim)%nat -> 0 < embed_size ->
  (forall t shape, Encoder.has_shape t shape ->
     Encoder.has_shape (Encoder.encode_tensor t embed_dim embed_size)
       (shape ++ [embed_dim])) /\
  (forall t path x, Encoder.get t path = Some (Encoder.Scalar x) ->
     Encoder.get (Encoder.encode_tensor t embed_dim embed_size) path =
     Some (Encoder.Stack (map Encoder.Scalar
             (Encoder.sinusoidal_positional_encoding x embed_dim embed_size)))) /\
  (forall x,
     length (Encoder.sinusoidal_positional_encoding x embed_dim embed_size) = embed_dim /\
     Encoder.sinusoidal_positional_encoding x embed_dim embed_size =
       map (fun i => sin (x * PI * Encoder.spec_freq embed_dim embed_size i))
           (seq 0 (Nat.div embed_dim 2)) ++
       map (fun i => cos (x * PI * Encoder.spec_freq embed_dim embed_size i))
           (seq 0 (Nat.div embed_dim 2))) /\
  Encoder.sinusoidal_positional_encoding 0 embed_dim embed_size =
    repeat 0 (Nat.div embed_dim 2) ++ repeat 1 (Nat.div embed_dim 2).
Proof.
  intros Heven Hge Hbase.
  pose proof (EncoderFacts.even_half embed_dim Heven) as Hhalf.
  repeat split.
  - intros t shape Hsh. rewrite <- Hhalf at 2.
    now apply EncoderFacts.encode_tensor_shape.
  - apply EncoderFacts.encode_tensor_get.
  - now rewrite EncoderFacts.encoding_length.
  - apply EncoderFacts.encoding_spec.
  - apply EncoderFacts.encoding_zero.
Qed.

Lemma positional_encoding_even_witness :
  Nat.even 8 = true /\ (2 <= 8)%nat /\ 0 < 256 /\
  Encoder.sinusoidal_positional_encoding 0 8 256 = [0; 0; 0; 0; 1; 1; 1; 1].
Proof.
  split; [reflexivity | split; [lia | split; [lra |]]].
  exact (proj2 (proj2 (proj2
           (positional_encoding_even 8 256 eq_refl ltac:(lia) ltac:(lra))))).
Defined.

(** C9: an odd [embed_dim] is not rejected; the appended axis has width
    [2 * floor (embed_dim / 2) = embed_dim - 1]. *)
Theorem positional_encoding_odd (embed_dim : nat) (embed_size : R) :
  Nat.odd embed_dim = true ->
  (2 * Nat.div embed_dim 2 = embed_dim - 1)%nat /\
  (forall x,
     length (Encoder.sinusoidal_positional_encoding x embed_dim embed_size)
     = (embed_dim - 1)%nat) /\
  (forall t shape, Encoder.has_shape t shape ->
     Encoder.has_shape (Encoder.encode_tensor t embed_dim embed_size)
       (shape ++ [(embed_dim - 1)%nat])).
Proof.
  intros Hodd.
  pose proof (EncoderFacts.odd_half embed_dim Hodd) as Hhalf.
  repeat split.
  - exact Hhalf.
  - intros x. now rewrite EncoderFacts.encoding_length.
  - intros t shape Hsh. rewrite <- Hhalf.
    now apply EncoderFacts.encode_tensor_shape.
Qed.

Lemma positional_encoding_odd_witness :
  Nat.odd 7 = true /\
  length (Encoder.sinusoidal_positional_encoding 1 7 256) = 6%nat.
Proof.
  split; [reflexivity |].
  exact (proj1 (proj2 (positional_encoding_odd 7 256 eq_refl)) 1).
Defined.

(** ** Vector algebra *)

Lemma vec3_eq (u v : vec3) :
  vx u = vx v -> vy u = vy v -> vz u = vz v -> u = v.
Proof. destruct u, v; simpl; intros -> -> ->; reflexivity. Qed.

Ltac vec3_ring := apply vec3_eq; simpl; try ring.

(** ** The closed form inverts the forward noising *)

(** With one and the same cumulative alpha on both sides, line 143 of
    [model.py] undoes line 146 of [train.py]. *)
Lemma noise_extraction_inverts (a : R) (x0 eps : vec3) :
  0 < a < 1 ->
  Diffusion.noise_extraction a (Trainer.noisy_coords a x0 eps) x0 = eps.
Proof.
  intros [Ha0 Ha1].
  assert (Hs : 0 < sqrt (1 - a)) by (apply sqrt_lt_R0; lra).
  unfold Diffusion.noise_extraction, Trainer.noisy_coords.
  apply vec3_eq; simpl; field; lra.
Qed.

(** ** Indexing the schedule *)

Module IndexFacts.
Import Diffusion.

Lemma Int_part_div (t T : Z) :
  (0 <= t)%Z -> (0 < T)%Z -> Int_part (IZR t / IZR T) = (t / T)%Z.
Proof.
  intros Ht HT. symmetry. apply Int_part_spec.
  assert (HTr : 0 < IZR T) by now apply IZR_lt.
  pose proof (Z.div_mod t T ltac:(lia)) as Hdm.
  pose proof (Z.mod_pos_bound t T HT) as Hm.
  set (q := (t / T)%Z) in *. set (r := (t mod T)%Z) in *.
  assert (Ht' : IZR t = IZR T * IZR q + IZR r).
  { rewrite <- mult_IZR, <- plus_IZR. now f_equal. }
  assert (Hr : 0 <= IZR r < IZR T).
  { split; [apply IZR_le | apply IZR_lt]; lia. }
  rewrite Ht'.
  replace ((IZR T * IZR q + IZR r) / IZR T) with (IZR q + IZR r / IZR T)
    by (field; lra).
  assert (0 <= IZR r / IZR T < 1).
  { split.
    - apply Rmult_le_pos; [lra | left; now apply Rinv_0_lt_compat].
    - apply (Rmult_lt_reg_r (IZR T)); [lra|]. unfold Rdiv.
      rewrite Rmult_assoc, Rinv_l by lra. lra. }
  lra.
Qed.

(** [.long()] of the quotient of two integers is integer division that
    rounds toward zero. *)
Lemma to_long_quot (t : Z) (T : nat) :
  (0 < T)%nat -> to_long (IZR t / INR T) = Z.quot t (Z.of_nat T).
Proof.
  intros HT. rewrite INR_IZR_INZ.
  assert (HTz : (0 < Z.of_nat T)%Z) by lia.
  assert (HTr : 0 < IZR (Z.of_nat T)) by now apply IZR_lt.
  unfold to_long.
  destruct (Z_le_gt_dec 0 t) as [Hge | Hlt].
  - assert (0 <= IZR t / IZR (Z.of_nat T)).
    { apply Rmult_le_pos; [now apply IZR_le | left; now apply Rinv_0_lt_compat]. }
    destruct (Rle_dec 0 _) as [_ | Hn]; [|contradiction].
    rewrite Int_part_div by lia. symmetry. apply Z.quot_div_nonneg; lia.
  - assert (IZR t / IZR (Z.of_nat T) < 0).
    { assert (IZR t < 0) by (apply IZR_lt; lia).
      apply (Rmult_lt_reg_r (IZR (Z.of_nat T))); [lra|]. unfold Rdiv.
      rewrite Rmult_assoc, Rinv_l by lra. lra. }
    destruct (Rle_dec 0 _) as [Hp | _]; [lra|].
    replace (- (IZR t / IZR (Z.of_nat T))) with (IZR (- t) / IZR (Z.of_nat T))
      by (rewrite opp_IZR; field; lra).
    rewrite Int_part_div by lia.
    rewrite <- Z.quot_div_nonneg by lia.
    rewrite Z.quot_opp_l by lia. lia.
Qed.

Lemma tensor_index_in_range (l : list R) (i : Z) :
  (0 <= i < Z.of_nat (length l))%Z ->
  tensor_index l i = Some (nth (Z.to_nat i) l 0).
Proof.
  intros Hi. unfold tensor_index.
  replace ((0 <=? i) && (i <? Z.of_nat (length l)))%Z with true
    by (symmetry; apply andb_true_iff; split; [apply Z.leb_le | apply Z.ltb_lt]; lia).
  apply nth_error_nth'. lia.
Qed.

(** A negative index within [-len] counts from the end. *)
Lemma tensor_index_wraps (l : list R) (i : Z) :
  (- Z.of_nat (length l) <= i < 0)%Z ->
  tensor_index l i = Some (nth (Z.to_nat (Z.of_nat (length l) + i)) l 0).
Proof.
  intros Hi. unfold tensor_index.
  replace ((0 <=? i) && (i <? Z.of_nat (length l)))%Z with false
    by (symmetry; apply andb_false_iff; left; apply Z.leb_gt; lia).
  replace ((- Z.of_nat (length l) <=? i) && (i <? 0))%Z with true
    by (symmetry; apply andb_true_iff; split; [apply Z.leb_le | apply Z.ltb_lt]; lia).
  apply nth_error_nth'. lia.
Qed.

Lemma tensor_index_error (l : list R) (i : Z) :
  tensor_index l i = None <->
  (i < - Z.of_nat (length l) \/ Z.of_nat (length l) <= i)%Z.
Proof.
  split.
  - intros H.
    destruct (Z_lt_ge_dec i (- Z.of_nat (length l))) as [|H1]; [now left|].
    destruct (Z_lt_ge_dec i (Z.of_nat (length l))) as [H2|]; [|right; lia].
    exfalso. destruct (Z_lt_ge_dec i 0).
    + rewrite tensor_index_wraps in H by lia. discriminate.
    + rewrite tensor_index_in_range in H by lia. discriminate.
  - intros H. unfold tensor_index.
    replace ((0 <=? i) && (i <? Z.of_nat (length l)))%Z with false.
    replace ((- Z.of_nat (length l) <=? i) && (i <? 0))%Z with false.
    reflexivity.
    + symmetry. apply andb_false_iff.
      destruct H; [left; apply Z.leb_gt | right; apply Z.ltb_ge]; lia.
    + symmetry. apply andb_false_iff.
      destruct H; [left; apply Z.leb_gt | right; apply Z.ltb_ge]; lia.
Qed.

Lemma tensor_index_all_some (l : list R) (idx : nat -> Z) (f : nat -> R) :
  forall B, (forall b, (b < B)%nat -> tensor_index l (idx b) = Some (f b)) ->
  tensor_index_all l idx B = Some (map f (seq 0 B)).
Proof.
  induction B as [|B IH]; intros H; cbn [tensor_index_all]; [reflexivity|].
  rewrite IH by (intros; apply H; lia).
  rewrite H by lia. now rewrite seq_S, map_app.
Qed.

Lemma tensor_index_all_error (l : list R) (idx : nat -> Z) :
  forall B, tensor_index_all l idx B = None <->
            exists b, (b < B)%nat /\ tensor_index l (idx b) = None.
Proof.
  induction B as [|B IH]; simpl.
  - split; [discriminate | intros (b & Hb & _); lia].
  - destruct (tensor_index_all l idx B) as [vs|] eqn:Hall.
    + destruct (tensor_index l (idx B)) as [v|] eqn:Hv.
      * split; [discriminate|]. intros (b & Hb & Hn).
        destruct (Nat.eq_dec b B) as [->|]; [congruence|].
        assert (Some vs = None :> option (list R)); [|discriminate].
        apply IH. exists b. split; [lia | assumption].
      * split; [|reflexivity]. intros _. exists B. split; [lia | assumption].
    + split; [|reflexivity]. intros _.
      destruct (proj1 IH eq_refl) as (b & Hb & Hn).
      exists b. split; [lia | assumption].
Qed.

Lemma nth_map_seq (f : nat -> R) (B b : nat) :
  (b < B)%nat -> nth b (map f (seq 0 B)) 0 = f b.
Proof.
  intros Hb.
  rewrite (nth_indep _ 0 (f 0%nat)) by now rewrite length_map, length_seq.
  now rewrite map_nth, seq_nth.
Qed.

End IndexFacts.

(** ** [ProteinDiffusionModel.forward] *)

Module ForwardFacts.
Import Diffusion IndexFacts.

Section Forward.

Variable m : ProteinDiffusionModel.
Variables B N A : nat.
Variable coords : nat -> nat -> nat -> vec3.
Variable residue_indices : nat -> nat -> Z.
Variable times : nat -> Z.
Variable atom_mask : nat -> nat -> nat -> R.

Let acp := Schedule.alpha_cumprod (schedule m).

(** Line 127 followed by line 142: the index is the time step divided by
    [diffusion_steps], rounded toward zero. *)
Lemma schedule_index_quot b :
  (1 <= diffusion_steps m)%nat ->
  schedule_index m times b = Z.quot (times b) (Z.of_nat (diffusion_steps m)).
Proof.
  intros HT. unfold schedule_index, times_norm. apply to_long_quot. lia.
Qed.

(** Every valid time step is sent to index 0. *)
Lemma schedule_index_valid b :
  (0 <= times b < Z.of_nat (diffusion_steps m))%Z ->
  schedule_index m times b = 0%Z.
Proof.
  intros Ht. rewrite schedule_index_quot by lia.
  apply Z.quot_small. lia.
Qed.

Lemma forward_error :
  forward m B N A coords residue_indices times atom_mask = None <->
  exists b, (b < B)%nat /\
    (schedule_index m times b < - Z.of_nat (length acp) \/
     Z.of_nat (length acp) <= schedule_index m times b)%Z.
Proof.
  unfold forward, cum_a_t. fold acp.
  destruct (tensor_index_all acp (schedule_index m times) B) as [cum|] eqn:Hc.
  - split; [discriminate|]. intros (b & Hb & Hr).
    assert (Some cum = None :> option (list R)); [|discriminate].
    rewrite <- Hc. apply tensor_index_all_error.
    exists b. split; [assumption | now apply tensor_index_error].
  - split; [|reflexivity]. intros _.
    apply tensor_index_all_error in Hc. destruct Hc as (b & Hb & Hn).
    exists b. split; [assumption | now apply tensor_index_error].
Qed.

(** When every index is accepted, [forward] returns the masked closed form
    evaluated at the schedule entries selected by [pick]. *)
Lemma forward_value (pick : nat -> R) :
  (forall b, (b < B)%nat ->
     tensor_index acp (schedule_index m times b) = Some (pick b)) ->
  exists out,
    forward m B N A coords residue_indices times atom_mask = Some out /\
    forall b n a, (b < B)%nat ->
      out b n a =
      vscale (atom_mask b n a)
        (noise_extraction (pick b) (coords b n a)
           (curr_coords m N A coords residue_indices times atom_mask b n a)).
Proof.
  intros Hpick. unfold forward, cum_a_t. fold acp.
  rewrite (tensor_index_all_some acp _ pick B Hpick).
  eexists. split; [reflexivity|].
  intros b n a Hb. unfold predicted_noise. now rewrite nth_map_seq.
Qed.

(** On valid time steps [forward] returns, and the cumulative alpha it
    uses is [alpha_cumprod[0]] whatever the time step. *)
Lemma forward_valid_times :
  length acp = diffusion_steps m ->
  (forall b, (b < B)%nat -> (0 <= times b < Z.of_nat (diffusion_steps m))%Z) ->
  exists out,
    forward m B N A coords residue_indices times atom_mask = Some out /\
    forall b n a, (b < B)%nat ->
      out b n a =
      vscale (atom_mask b n a)
        (noise_extraction (nth 0 acp 0) (coords b n a)
           (curr_coords m N A coords residue_indices times atom_mask b n a)).
Proof.
  intros Hlen Ht.
  apply (forward_value (fun _ => nth 0 acp 0)).
  intros b Hb. rewrite schedule_index_valid by auto.
  specialize (Ht b Hb).
  now rewrite tensor_index_in_range by lia.
Qed.

End Forward.

Lemma init_schedule_length mr T pe hs ed nl na bs be params :
  length (Schedule.alpha_cumprod (schedule (init mr T pe hs ed nl na bs be params)))
  = diffusion_steps (init mr T pe hs ed nl na bs be params).
Proof.
  simpl.
  now rewrite ScheduleFacts.cumprod_length, length_map, ScheduleFacts.linspace_length.
Qed.

End ForwardFacts.

(** ** C1, C2 and C6: which schedule entry [forward] reads *)

Lemma sqrt_of_square (x r : R) : 0 <= r -> x = r * r -> sqrt x = r.
Proof. intros Hr ->. now apply sqrt_square. Qed.

Lemma two_step_alpha_cumprod :
  Schedule.alpha_cumprod (Diffusion.schedule Examples.two_step_model)
  = [64 / 100; 36 / 100].
Proof. simpl. f_equal; [lra | f_equal; lra]. Qed.

(** The two-step model lies in the range of the idealisations: it has no
    layer, two diffusion steps and the schedule entries 0.64 and 0.36. *)
Lemma two_step_model_well_shaped : Shapes.model_well_shaped Examples.two_step_model.
Proof. repeat split. constructor. Qed.


Lemma two_step_exact_time_steps :
  Float32.exact_time_steps (Diffusion.diffusion_steps Examples.two_step_model).
Proof. unfold Float32.exact_time_steps. simpl. lia. Qed.

Lemma two_step_schedule_representable :
  Float32.representable_schedule (36 / 100) (4375 / 10000) 2.
Proof.
  assert (H20 : 2 ^ 20 = 1048576) by (simpl; lra).
  unfold Float32.representable_schedule. rewrite H20.
  repeat split; try lra. simpl. lia.
Qed.

Lemma two_step_entries (c : R) :
  In c (Schedule.alpha_cumprod (Diffusion.schedule Examples.two_step_model)) ->
  0 < c < 1.
Proof.
  rewrite two_step_alpha_cumprod. intros [<- | [<- | []]]; lra.
Qed.

(** [forward] of the two-step model at time step 1 on the input (6,6,6). *)
Lemma two_step_forward_at_time_1 :
  exists out,
    Diffusion.forward Examples.two_step_model 1 1 1 Examples.coords_6
      Examples.residues_0 (fun _ => 1%Z) Examples.mask_all = Some out /\
    out 0%nat 0%nat 0%nat = mk3 2 2 2.
Proof.
  destruct (ForwardFacts.forward_valid_times Examples.two_step_model 1 1 1
              Examples.coords_6 Examples.residues_0 (fun _ => 1%Z)
              Examples.mask_all)
    as (out & Hout & Hval).
  - apply ForwardFacts.init_schedule_length.
  - intros b _. simpl. lia.
  - exists out. split; [exact Hout|].
    assert (H8 : sqrt (64 / 100) = 8 / 10) by (apply sqrt_of_square; lra).
    assert (H6 : sqrt (36 / 100) = 6 / 10) by (apply sqrt_of_square; lra).
    rewrite Hval by lia. rewrite two_step_alpha_cumprod.
    unfold Diffusion.noise_extraction; simpl.
    replace (1 - 64 / 100) with (36 / 100) by lra.
    rewrite H8, H6. unfold Examples.mask_all. apply vec3_eq; simpl; lra.
Qed.

(** C1 fails on the code: with [diffusion_steps = 2],
    [alpha_cumprod = [0.64, 0.36]], no EGNN layer and time step 1, [forward]
    returns (2,2,2) for the input (6,6,6), the closed form at
    [alpha_cumprod[0]]; the closed form at [alpha_cumprod[1]], which C1
    asserts, is (3,3,3). *)
Theorem forward_reads_alpha_cumprod_0_at_time_1 :
  let m := Examples.two_step_model in
  let times := fun _ : nat => 1%Z in
  let final :=
    Diffusion.curr_coords m 1 1 Examples.coords_6 Examples.residues_0 times
      Examples.mask_all in
  (exists out,
     Diffusion.forward m 1 1 1 Examples.coords_6 Examples.residues_0 times
       Examples.mask_all = Some out /\
     out 0%nat 0%nat 0%nat = mk3 2 2 2) /\
  Diffusion.noise_extraction
    (nth 1 (Schedule.alpha_cumprod (Diffusion.schedule m)) 0)
    (Examples.coords_6 0%nat 0%nat 0%nat) (final 0%nat 0%nat 0%nat)
  = mk3 3 3 3.
Proof.
  intros m times final. split; [exact two_step_forward_at_time_1|].
  assert (H8 : sqrt (64 / 100) = 8 / 10) by (apply sqrt_of_square; lra).
  assert (H6 : sqrt (36 / 100) = 6 / 10) by (apply sqrt_of_square; lra).
  unfold m. rewrite two_step_alpha_cumprod.
  unfold Diffusion.noise_extraction; simpl.
  replace (1 - 36 / 100) with (64 / 100) by lra.
  rewrite H8, H6. apply vec3_eq; simpl; lra.
Qed.

(** C6 fails on the code: the trainer noises [x0 = (6,6,6)] with
    [eps = (3,3,3)] at time step 1, where [alpha_cumprod[1] = 0.36], into
    (6,6,6); the two-step model has no layer, so its layer stack returns
    exactly [x0] on this input; yet [forward] at time step 1 returns
    (2,2,2) and not [eps], because its closed form reads
    [alpha_cumprod[0]]. *)
Theorem round_trip_fails_at_time_1 :
  let m := Examples.two_step_model in
  let times := fun _ : nat => 1%Z in
  let x0 := mk3 6 6 6 in
  let eps := mk3 3 3 3 in
  Trainer.alpha_cumprod_at m 1 = Some (36 / 100) /\
  Trainer.noisy_coords (36 / 100) x0 eps = Examples.coords_6 0%nat 0%nat 0%nat /\
  Diffusion.curr_coords m 1 1 Examples.coords_6 Examples.residues_0 times
    Examples.mask_all 0%nat 0%nat 0%nat = x0 /\
  exists out,
    Diffusion.forward m 1 1 1 Examples.coords_6 Examples.residues_0 times
      Examples.mask_all = Some out /\
    out 0%nat 0%nat 0%nat = mk3 2 2 2 /\
    out 0%nat 0%nat 0%nat <> eps.
Proof.
  intros m times x0 eps.
  assert (H8 : sqrt (64 / 100) = 8 / 10) by (apply sqrt_of_square; lra).
  assert (H6 : sqrt (36 / 100) = 6 / 10) by (apply sqrt_of_square; lra).
  split; [|split; [|split]].
  - unfold Trainer.alpha_cumprod_at, m. rewrite two_step_alpha_cumprod.
    reflexivity.
  - unfold Trainer.noisy_coords, x0, eps, Examples.coords_6.
    replace (1 - 36 / 100) with (64 / 100) by lra.
    rewrite H8, H6. apply vec3_eq; simpl; lra.
  - reflexivity.
  - destruct two_step_forward_at_time_1 as (out & Hout & Hval).
    exists out. split; [exact Hout|]. split; [exact Hval|].
    rewrite Hval. unfold eps. intros Heq. injection Heq as Hx. lra.
Qed.

(** C2, as stated, fails: the time step [-2] lies outside
    [[0, diffusion_steps)] for [diffusion_steps = 2], yet [forward] returns;
    the index applied to the schedule is [-1], which reads the last entry. *)
Lemma forward_accepts_time_step_minus_2 :
  let m := Examples.two_step_model in
  let times := fun _ : nat => (-2)%Z in
  ~ (0 <= times 0%nat < Z.of_nat (Diffusion.diffusion_steps m))%Z /\
  Diffusion.schedule_index m times 0%nat = (-1)%Z /\
  Diffusion.tensor_index (Schedule.alpha_cumprod (Diffusion.schedule m)) (-1)
    = Some (nth 1 (Schedule.alpha_cumprod (Diffusion.schedule m)) 0) /\
  exists out,
    Diffusion.forward m 1 1 1 Examples.coords_6 Examples.residues_0 times
      Examples.mask_all = Some out.
Proof.
  intros m times.
  assert (Hidx : Diffusion.schedule_index m times 0%nat = (-1)%Z).
  { rewrite ForwardFacts.schedule_index_quot by (simpl; lia). reflexivity. }
  split; [unfold times, m; simpl; lia|].
  split; [exact Hidx|]. split; [reflexivity|].
  destruct (ForwardFacts.forward_value m 1 1 1 Examples.coords_6
              Examples.residues_0 times Examples.mask_all
              (fun _ => nth 1 (Schedule.alpha_cumprod (Diffusion.schedule m)) 0))
    as (out & Hout & _).
  - intros b Hb. replace b with 0%nat by lia. rewrite Hidx. reflexivity.
  - now exists out.
Qed.

(** C2 (amended): [forward] has no range check of its own.  For a
    well-shaped model with exact time steps it fails exactly when an index
    applied to the precomputed schedule lies outside
    [[-diffusion_steps, diffusion_steps)]; when every index lies inside, the
    call returns, and a batch element whose index [i] is negative is not
    rejected: its output is the closed form at the entry
    [diffusion_steps + i], read from the end of the schedule. *)
Theorem forward_fails_iff_schedule_index_out_of_range
  (m : Diffusion.ProteinDiffusionModel) (B N A : nat)
  (coords : nat -> nat -> nat -> vec3) (residue_indices : nat -> nat -> Z)
  (times : nat -> Z) (atom_mask : nat -> nat -> nat -> R) :
  let T := Z.of_nat (Diffusion.diffusion_steps m) in
  let acp := Schedule.alpha_cumprod (Diffusion.schedule m) in
  let idx := Diffusion.schedule_index m times in
  Shapes.model_well_shaped m ->
  Float32.exact_time_steps (Diffusion.diffusion_steps m) ->
  length acp = Diffusion.diffusion_steps m ->
  (Diffusion.forward m B N A coords residue_indices times atom_mask = None <->
   exists b, (b < B)%nat /\ (idx b < - T \/ T <= idx b)%Z) /\
  ((forall b, (b < B)%nat -> (- T <= idx b < T)%Z) ->
   exists out,
     Diffusion.forward m B N A coords residue_indices times atom_mask = Some out /\
     forall b n a, (b < B)%nat ->
       out b n a =
       vscale (atom_mask b n a)
         (Diffusion.noise_extraction
            (nth (Z.to_nat (if (idx b <? 0)%Z then T + idx b else idx b)) acp 0)
            (coords b n a)
            (Diffusion.curr_coords m N A coords residue_indices times atom_mask
               b n a))).
Proof.
  intros T acp idx _ _ Hlen. split.
  - unfold T, idx. rewrite <- Hlen. apply ForwardFacts.forward_error.
  - intros Hidx. apply ForwardFacts.forward_value.
    intros b Hb. specialize (Hidx b Hb). fold acp. fold idx.
    unfold T in *. rewrite <- Hlen in *.
    destruct (idx b <? 0)%Z eqn:Hneg.
    + apply Z.ltb_lt in Hneg. apply IndexFacts.tensor_index_wraps. lia.
    + apply Z.ltb_ge in Hneg. apply IndexFacts.tensor_index_in_range. lia.
Qed.

(** With two diffusion steps the time step 4 is turned into the index 2,
    and the call raises. *)
Lemma forward_fails_iff_schedule_index_out_of_range_witness :
  Diffusion.forward Examples.two_step_model 1 1 1 Examples.coords_6
    Examples.residues_0 (fun _ => 4%Z) Examples.mask_all = None.
Proof.
  apply (proj1 (forward_fails_iff_schedule_index_out_of_range
                  Examples.two_step_model 1 1 1 Examples.coords_6
                  Examples.residues_0 (fun _ => 4%Z) Examples.mask_all
                  two_step_model_well_shaped two_step_exact_time_steps eq_refl)).
  exists 0%nat. split; [lia|]. right.
  rewrite ForwardFacts.schedule_index_quot by (simpl; lia).
  cbn. lia.
Defined.

(** ** C8: the sampler's re-masking line *)

(** C8: [coords * mask + (1 - mask) * coords] is [coords] at every entry,
    for every mask value (in particular for 0 and 1): the line changes
    nothing. *)
Theorem remask_is_identity (coords : nat -> nat -> nat -> vec3)
  (atom_mask : nat -> nat -> nat -> R) :
  forall b n a, Sampler.remask coords atom_mask b n a = coords b n a.
Proof.
  intros b n a. unfold Sampler.remask. vec3_ring.
Qed.

(** ** C4: masked atom slots *)

Lemma vscale_zero (v : vec3) : vscale 0 v = vzero.
Proof. unfold vzero. vec3_ring. Qed.

Lemma vadd_zero_r (v : vec3) : vadd v vzero = v.
Proof. vec3_ring. Qed.

(** A masked slot keeps its input coordinates through the whole layer
    stack. *)
Lemma layers_keep_masked_slot (N A : nat) (atom_mask : nat -> nat -> nat -> R)
  (residue_indices : nat -> nat -> Z) (b n a : nat) :
  atom_mask b n a = 0 ->
  forall layers c h,
    fst (fold_left
           (fun st layer =>
              Egnn.forward layer N A (fst st) (snd st) atom_mask residue_indices)
           layers (c, h)) b n a
    = c b n a.
Proof.
  intros Hmask. induction layers as [|L rest IH]; intros c h; [reflexivity|].
  cbn [fold_left]. unfold Egnn.forward at 2. cbn [fst snd].
  rewrite IH. unfold Egnn.updated_coords.
  rewrite Hmask, vscale_zero. apply vadd_zero_r.
Qed.

Lemma curr_coords_masked (m : Diffusion.ProteinDiffusionModel) (N A : nat)
  (coords : nat -> nat -> nat -> vec3) (residue_indices : nat -> nat -> Z)
  (times : nat -> Z) (atom_mask : nat -> nat -> nat -> R) (b n a : nat) :
  atom_mask b n a = 0 ->
  Diffusion.curr_coords m N A coords residue_indices times atom_mask b n a
  = coords b n a.
Proof.
  intros Hmask. unfold Diffusion.curr_coords, Diffusion.run_layers.
  now apply layers_keep_masked_slot.
Qed.



(** ** C3: rigid motions and the EGNN layer *)

Module EgnnFacts.
Import NN Egnn.

Lemma vsum_n_ext (f g : nat -> vec3) (n : nat) :
  (forall k, (k < n)%nat -> f k = g k) -> vsum_n f n = vsum_n g n.
Proof.
  induction n as [|n IH]; intros H; simpl; [reflexivity|].
  rewrite IH by (intros; apply H; lia). now rewrite H by lia.
Qed.

Section Translation.

Variable L : EGNNLayer.
Variables N A : nat.
Variable coords : nat -> nat -> vec3.
Variable node_features : nat -> list R.
Variable atom_mask : nat -> nat -> R.
Variable residue_indices : nat -> Z.
Variable v : vec3.

Lemma directional_vectors_translate i j :
  directional_vectors A (translate v coords) i j = directional_vectors A coords i j.
Proof.
  unfold directional_vectors. f_equal. apply vsum_n_ext. intros k _.
  unfold translate. vec3_ring.
Qed.

Lemma edge_messages_translate i j :
  edge_messages L A (translate v coords) node_features residue_indices i j
  = edge_messages L A coords node_features residue_indices i j.
Proof.
  unfold edge_messages, edge_features. now rewrite directional_vectors_translate.
Qed.

Lemma coord_updates_translate i :
  coord_updates L N A (translate v coords) node_features residue_indices i
  = coord_updates L N A coords node_features residue_indices i.
Proof.
  unfold coord_updates. apply vsum_n_ext. intros j _.
  unfold coord_gate.
  now rewrite edge_messages_translate, directional_vectors_translate.
Qed.

Lemma rows_sum_ext (f g : nat -> list R) (n : nat) :
  (forall k, (k < n)%nat -> f k = g k) -> rows_sum f n = rows_sum g n.
Proof.
  induction n as [|n IH]; intros H; [reflexivity|].
  destruct n as [|n]; [apply H; lia|].
  change (zip_with Rplus (rows_sum f (S n)) (f (S n))
          = zip_with Rplus (rows_sum g (S n)) (g (S n))).
  rewrite IH by (intros; apply H; lia). now rewrite H by lia.
Qed.

(** Translation equivariance of one layer: the directional vectors, the
    coordinate update and the node features do not see a translation of the
    input, and the output coordinates are translated by the same vector. *)
Lemma layer_translation_equivariant :
  (forall i j,
     directional_vectors A (translate v coords) i j
     = directional_vectors A coords i j) /\
  (forall i,
     coord_updates L N A (translate v coords) node_features residue_indices i
     = coord_updates L N A coords node_features residue_indices i) /\
  (forall i a,
     updated_coords L N A (translate v coords) node_features atom_mask
       residue_indices i a
     = vadd (updated_coords L N A coords node_features atom_mask
               residue_indices i a) v) /\
  (forall i,
     updated_node_features L N A (translate v coords) node_features
       residue_indices i
     = updated_node_features L N A coords node_features residue_indices i).
Proof.
  repeat split.
  - apply directional_vectors_translate.
  - apply coord_updates_translate.
  - intros i a. unfold updated_coords. rewrite coord_updates_translate.
    unfold translate. vec3_ring.
  - intros i. unfold updated_node_features, aggregated_messages.
    f_equal. f_equal. f_equal. apply rows_sum_ext. intros j _.
    apply edge_messages_translate.
Qed.

End Translation.

Lemma silu_0 : silu 0 = 0.
Proof. unfold silu. ring. Qed.

Lemma silu_nonzero (x : R) : x <> 0 -> silu x <> 0.
Proof.
  intros Hx. unfold silu.
  pose proof (exp_pos (- x)) as He.
  apply Rmult_integral_contrapositive_currified; [exact Hx|].
  unfold Rdiv. rewrite Rmult_1_l. apply Rinv_neq_0_compat. lra.
Qed.

Lemma rot_z_is_rotation : is_rotation Examples.rot_z.
Proof. unfold is_rotation, det3, vdot; simpl. repeat split; ring. Qed.

(** With [Examples.layer_x] and zero node features, an edge message is the
    twice-gated x component of the directional vector, and the coordinate
    gate gates it once more. *)
Lemma layer_x_first_edge_map A coords ridx i j :
  linear (edge_mlp_0 Examples.layer_x)
    (edge_features Examples.layer_x A coords Examples.features_0 ridx i j)
  = [vx (directional_vectors A coords i j)].
Proof.
  unfold edge_features, rel_residue_enc,
    Encoder.sinusoidal_positional_encoding, Encoder.inv_freq, linear, dot,
    sum_list.
  simpl. f_equal. ring.
Qed.

Lemma layer_x_edge_messages A coords ridx i j :
  edge_messages Examples.layer_x A coords Examples.features_0 ridx i j
  = [silu (silu (vx (directional_vectors A coords i j)))].
Proof.
  unfold edge_messages, edge_mlp. rewrite layer_x_first_edge_map.
  generalize (vx (directional_vectors A coords i j)). intros dx.
  unfold linear, dot, sum_list. simpl. f_equal. f_equal. ring.
Qed.

Lemma layer_x_coord_gate A coords ridx i j :
  coord_gate Examples.layer_x A coords Examples.features_0 ridx i j
  = silu (silu (silu (vx (directional_vectors A coords i j)))).
Proof.
  unfold coord_gate. rewrite layer_x_edge_messages.
  generalize (silu (silu (vx (directional_vectors A coords i j)))). intros msg.
  unfold coord_mlp, linear, dot, sum_list. simpl.
  replace (msg * 1 + 0 + 0) with msg by ring.
  ring.
Qed.

End EgnnFacts.

Module RotationExample.
Import NN Egnn Examples EgnnFacts.

Lemma dvec_y_00 : directional_vectors 1 coords_y 0 0 = vzero.
Proof. unfold directional_vectors, vzero. apply vec3_eq; simpl; lra. Qed.

Lemma dvec_y_01 : directional_vectors 1 coords_y 0 1 = mk3 0 1 0.
Proof. unfold directional_vectors. apply vec3_eq; simpl; lra. Qed.

Lemma dvec_rot_00 : directional_vectors 1 (rotate rot_z coords_y) 0 0 = vzero.
Proof.
  unfold directional_vectors, vzero, rotate, mat_apply, vdot.
  apply vec3_eq; simpl; lra.
Qed.

Lemma dvec_rot_01 :
  directional_vectors 1 (rotate rot_z coords_y) 0 1 = mk3 (-1) 0 0.
Proof.
  unfold directional_vectors, rotate, mat_apply, vdot.
  apply vec3_eq; simpl; lra.
Qed.

Lemma gate_rot_nonzero : gate_rot <> 0.
Proof. unfold gate_rot. do 3 apply silu_nonzero. lra. Qed.

Lemma updated_y_00 :
  updated_coords layer_x 2 1 coords_y features_0 mask_ones residues_0_1 0 0
  = mk3 0 1 0.
Proof.
  unfold updated_coords, coord_updates. cbn [vsum_n].
  rewrite !layer_x_coord_gate, dvec_y_00, dvec_y_01.
  cbn [vx vzero]. rewrite !silu_0.
  unfold mask_ones. apply vec3_eq; simpl; lra.
Qed.

Lemma updated_rot_00 :
  updated_coords layer_x 2 1 (rotate rot_z coords_y) features_0 mask_ones
    residues_0_1 0 0
  = mk3 (-1 - gate_rot) 0 0.
Proof.
  unfold updated_coords, coord_updates. cbn [vsum_n].
  rewrite !layer_x_coord_gate, dvec_rot_00, dvec_rot_01.
  cbn [vx vzero]. rewrite !silu_0. fold gate_rot.
  unfold mask_ones, rotate, mat_apply, vdot. apply vec3_eq; simpl; lra.
Qed.

End RotationExample.

(** C3 fails on the code for rotations: for the layer [Examples.layer_x],
    two residues of one atom at (0,1,0) and (0,0,0), and the quarter turn
    about z, the layer moves the rotated input to (-1 - g, 0, 0) with
    [g <> 0], whereas rotating the layer's output for the unrotated input
    gives (-1, 0, 0).  The edge map receives the directional vector itself,
    so the gate is not invariant under the rotation. *)
Theorem layer_x_is_not_rotation_equivariant :
  let layer coords :=
    Egnn.updated_coords Examples.layer_x 2 1 coords Examples.features_0
      Examples.mask_ones Examples.residues_0_1 in
  is_rotation Examples.rot_z /\
  mat_apply Examples.rot_z (layer Examples.coords_y 0%nat 0%nat) = mk3 (-1) 0 0 /\
  layer (rotate Examples.rot_z Examples.coords_y) 0%nat 0%nat
    = mk3 (-1 - Examples.gate_rot) 0 0 /\
  layer (rotate Examples.rot_z Examples.coords_y) 0%nat 0%nat
    <> mat_apply Examples.rot_z (layer Examples.coords_y 0%nat 0%nat).
Proof.
  intros layer. unfold layer.
  rewrite RotationExample.updated_y_00, RotationExample.updated_rot_00.
  assert (Hrot : mat_apply Examples.rot_z (mk3 0 1 0) = mk3 (-1) 0 0).
  { unfold mat_apply, vdot. apply vec3_eq; simpl; lra. }
  rewrite Hrot.
  split; [apply EgnnFacts.rot_z_is_rotation|].
  split; [reflexivity|]. split; [reflexivity|].
  intros Heq. injection Heq as Hx.
  pose proof RotationExample.gate_rot_nonzero. lra.
Qed.

(** X8.  The translation half of C3 holds for every layer and every input: a
    translation of the input leaves directional vectors and coordinate
    updates unchanged and translates the output. *)
Theorem layer_is_translation_equivariant
  (L : Egnn.EGNNLayer) (N A : nat) (coords : nat -> nat -> nat -> vec3)
  (node_features : nat -> nat -> list R) (atom_mask : nat -> nat -> nat -> R)
  (residue_indices : nat -> nat -> Z) (v : vec3) :
  forall b n a,
    fst (Egnn.forward L N A (fun b => translate v (coords b)) node_features
           atom_mask residue_indices) b n a
    = vadd (fst (Egnn.forward L N A coords node_features atom_mask
                   residue_indices) b n a) v /\
    snd (Egnn.forward L N A (fun b => translate v (coords b)) node_features
           atom_mask residue_indices) b n
    = snd (Egnn.forward L N A coords node_features atom_mask residue_indices) b n.
Proof.
  intros b n a. simpl.
  destruct (EgnnFacts.layer_translation_equivariant L N A (coords b)
              (node_features b) (atom_mask b) (residue_indices b) v)
    as (_ & _ & Hc & Hh).
  split; [apply Hc | apply Hh].
Qed.

(** ** C10: what [forward] leaves untouched *)

Module StoreFacts.
Import Store.

Lemma extends_refl h : extends h h.
Proof. exists []. now rewrite app_nil_r. Qed.

Lemma extends_trans h1 h2 h3 : extends h1 h2 -> extends h2 h3 -> extends h1 h3.
Proof. intros [e1 ->] [e2 ->]. exists (e1 ++ e2). now rewrite app_assoc. Qed.

Lemma extends_lookup h h' r v :
  extends h h' -> nth_error h r = Some v -> nth_error h' r = Some v.
Proof.
  intros [ext ->] Hr. rewrite nth_error_app1; [assumption|].
  apply nth_error_Some. congruence.
Qed.

Lemma grows_ret {X} (x : X) : grows (ret x).
Proof. intros h y h' H. injection H as _ <-. apply extends_refl. Qed.

Lemma grows_fail {X} : grows (@fail X).
Proof. intros h y h' H. discriminate. Qed.

Lemma grows_bind {X Y} (c : M X) (k : X -> M Y) :
  grows c -> (forall x, grows (k x)) -> grows (bind c k).
Proof.
  intros Hc Hk h y h' H. unfold bind in H.
  destruct (c h) as [[x h1]|] eqn:Hch; [|discriminate].
  eapply extends_trans; [eapply Hc | eapply Hk]; eauto.
Qed.

Lemma grows_alloc v : grows (alloc v).
Proof. intros h r h' H. injection H as _ <-. now exists [v]. Qed.

Lemma grows_read r : grows (read r).
Proof.
  intros h v h' H. unfold read in H.
  destruct (nth_error h r); [|discriminate].
  injection H as _ <-. apply extends_refl.
Qed.

Ltac grows_step :=
  first [ apply grows_ret | apply grows_fail | apply grows_alloc | apply grows_read
        | apply grows_bind; [| intros ?] ].

Ltac grows_typed_read :=
  apply grows_bind; [apply grows_read | intros []; first [apply grows_ret | apply grows_fail]].

Lemma grows_read_coords r : grows (read_coords r).
Proof. grows_typed_read. Qed.
Lemma grows_read_features r : grows (read_features r).
Proof. grows_typed_read. Qed.
Lemma grows_read_mask r : grows (read_mask r).
Proof. grows_typed_read. Qed.
Lemma grows_read_indices r : grows (read_indices r).
Proof. grows_typed_read. Qed.
Lemma grows_read_times r : grows (read_times r).
Proof. grows_typed_read. Qed.
Lemma grows_read_batch r : grows (read_batch r).
Proof. grows_typed_read. Qed.
Lemma grows_read_batch_rows r : grows (read_batch_rows r).
Proof. grows_typed_read. Qed.
Lemma grows_read_row r : grows (read_row r).
Proof. grows_typed_read. Qed.

Create HintDb grows.
#[local] Hint Resolve grows_ret grows_fail grows_alloc grows_read
  grows_read_coords grows_read_features grows_read_mask grows_read_indices
  grows_read_times grows_read_batch grows_read_batch_rows grows_read_row
  : grows.

Ltac grows_auto :=
  repeat first [ solve [auto with grows] | apply grows_bind; [| intros ?] ].

Lemma grows_layer_forward L N A c h k r : grows (layer_forward L N A c h k r).
Proof. unfold layer_forward. grows_auto. Qed.

Lemma grows_run_layers layers N A k r :
  forall c h, grows (run_layers layers N A c h k r).
Proof.
  induction layers as [|L rest IH]; intros c h; simpl.
  - apply grows_ret.
  - apply grows_bind; [apply grows_layer_forward | intros p; apply IH].
Qed.

Lemma grows_forward m s B N A coords residue_indices times atom_mask :
  grows (forward m s B N A coords residue_indices times atom_mask).
Proof.
  unfold forward.
  repeat first
    [ solve [auto with grows]
    | apply grows_run_layers
    | apply grows_bind; [| intros ?]
    | match goal with
      | |- grows (match ?x with Some _ => _ | None => _ end) => destruct x
      end ].
Qed.

(** In contrast, [write] replaces the tensor at its reference. *)
Lemma write_replaces r v h h' :
  write r v h = Some (tt, h') -> nth_error h' r = Some v.
Proof.
  unfold write. destruct (r <? length h)%nat eqn:Hr; [|discriminate].
  intros H. injection H as <-. apply Nat.ltb_lt in Hr.
  rewrite nth_error_app2 by (rewrite length_firstn; lia).
  rewrite length_firstn. replace (r - Nat.min r (length h))%nat with 0%nat by lia.
  reflexivity.
Qed.

(** The sampler's mask is built by such an update: the tensor allocated as
    zeros holds the backbone mask when [backbone_mask] returns. *)
Lemma backbone_mask_returns backbone_indices h :
  backbone_mask backbone_indices h
  = Some (length h,
          h ++ [VMask (fun _ _ a =>
                  if existsb (Nat.eqb a) backbone_indices then 1 else 0)]).
Proof.
  unfold backbone_mask, bind, alloc, write, ret.
  rewrite length_app. cbn [length].
  replace (length h <? length h + 1)%nat with true
    by (symmetry; apply Nat.ltb_lt; lia).
  rewrite firstn_app, firstn_all, Nat.sub_diag. cbn [firstn].
  rewrite skipn_all2 by (rewrite length_app; simpl; lia).
  now rewrite app_nil_r.
Qed.

(** *** The heap program computes what the pure [forward] computes *)

Lemma returns_ret {X} (x : X) (Q : X -> heap -> Prop) h :
  Q x h -> returns (ret x) Q h.
Proof. intros HQ. exists x, h. now split. Qed.

Lemma returns_bind {X Y} (c : M X) (k : X -> M Y) (Q : Y -> heap -> Prop) h :
  returns c (fun x h' => returns (k x) Q h') h -> returns (bind c k) Q h.
Proof.
  intros (x & h1 & Hc & (y & h2 & Hk & HQ)).
  exists y, h2. split; [|assumption]. unfold bind. now rewrite Hc.
Qed.

Lemma returns_alloc v (Q : ref -> heap -> Prop) h :
  (forall r h', extends h h' -> nth_error h' r = Some v -> Q r h') ->
  returns (alloc v) Q h.
Proof.
  intros HQ. exists (length h), (h ++ [v]). split; [reflexivity|].
  apply HQ; [now exists [v]|].
  rewrite nth_error_app2 by lia. now rewrite Nat.sub_diag.
Qed.

Lemma returns_read r v (Q : value -> heap -> Prop) h :
  nth_error h r = Some v -> Q v h -> returns (read r) Q h.
Proof.
  intros Hr HQ. exists v, h. split; [|assumption]. unfold read. now rewrite Hr.
Qed.

Ltac returns_typed_read :=
  intros Hr HQ; apply returns_bind; eapply returns_read; [exact Hr|];
  now apply returns_ret.

Lemma returns_read_coords r c (Q : _ -> heap -> Prop) h :
  nth_error h r = Some (VCoords c) -> Q c h -> returns (read_coords r) Q h.
Proof. returns_typed_read. Qed.
Lemma returns_read_features r f (Q : _ -> heap -> Prop) h :
  nth_error h r = Some (VFeatures f) -> Q f h -> returns (read_features r) Q h.
Proof. returns_typed_read. Qed.
Lemma returns_read_mask r k (Q : _ -> heap -> Prop) h :
  nth_error h r = Some (VMask k) -> Q k h -> returns (read_mask r) Q h.
Proof. returns_typed_read. Qed.
Lemma returns_read_indices r i (Q : _ -> heap -> Prop) h :
  nth_error h r = Some (VIndices i) -> Q i h -> returns (read_indices r) Q h.
Proof. returns_typed_read. Qed.
Lemma returns_read_times r t (Q : _ -> heap -> Prop) h :
  nth_error h r = Some (VTimes t) -> Q t h -> returns (read_times r) Q h.
Proof. returns_typed_read. Qed.
Lemma returns_read_batch r t (Q : _ -> heap -> Prop) h :
  nth_error h r = Some (VBatch t) -> Q t h -> returns (read_batch r) Q h.
Proof. returns_typed_read. Qed.
Lemma returns_read_batch_rows r e (Q : _ -> heap -> Prop) h :
  nth_error h r = Some (VBatchRows e) -> Q e h -> returns (read_batch_rows r) Q h.
Proof. returns_typed_read. Qed.
Lemma returns_read_row r l (Q : _ -> heap -> Prop) h :
  nth_error h r = Some (VRow l) -> Q l h -> returns (read_row r) Q h.
Proof. returns_typed_read. Qed.

(** Carry every known heap entry over to an extension of the heap. *)
Ltac carry Hext :=
  match type of Hext with
  | extends ?h ?h' =>
      repeat match goal with
             | H : nth_error h _ = Some _ |- _ =>
                 apply (extends_lookup h h' _ _ Hext) in H
             end
  end.

Ltac run_alloc :=
  apply returns_bind; apply returns_alloc;
  let r := fresh "r" in let h := fresh "h" in
  let Hext := fresh "Hext" in let Hr := fresh "Hr" in
  intros r h Hext Hr; carry Hext; clear Hext.

Ltac run_read :=
  apply returns_bind;
  first [ eapply returns_read_coords; [eassumption|]
        | eapply returns_read_features; [eassumption|]
        | eapply returns_read_mask; [eassumption|]
        | eapply returns_read_indices; [eassumption|]
        | eapply returns_read_times; [eassumption|]
        | eapply returns_read_batch; [eassumption|]
        | eapply returns_read_batch_rows; [eassumption|]
        | eapply returns_read_row; [eassumption|] ].

Lemma returns_run_layers N A kr rr k r layers :
  forall cr fr c f h (Q : ref * ref -> heap -> Prop),
  nth_error h cr = Some (VCoords c) ->
  nth_error h fr = Some (VFeatures f) ->
  nth_error h kr = Some (VMask k) ->
  nth_error h rr = Some (VIndices r) ->
  (forall p h', extends h h' ->
     let final :=
       fold_left (fun st layer => Egnn.forward layer N A (fst st) (snd st) k r)
         layers (c, f) in
     nth_error h' (fst p) = Some (VCoords (fst final)) ->
     nth_error h' (snd p) = Some (VFeatures (snd final)) ->
     Q p h') ->
  returns (run_layers layers N A cr fr kr rr) Q h.
Proof.
  induction layers as [|L rest IH]; intros cr fr c f h Q Hc Hf Hk Hr HQ.
  - apply returns_ret. apply HQ; [apply extends_refl | exact Hc | exact Hf].
  - cbn [run_layers]. apply returns_bind. unfold layer_forward.
    do 4 run_read.
    apply returns_bind; apply returns_alloc. intros r1 h1 Hext1 Hr1.
    pose proof Hext1 as Hkeep1. carry Hext1.
    apply returns_bind; apply returns_alloc. intros r2 h2 Hext2 Hr2.
    pose proof Hext2 as Hkeep2. carry Hext2.
    apply returns_ret. cbn [fst snd].
    eapply IH; try eassumption.
    intros p h' Hext' final Hp1 Hp2. apply HQ; try assumption.
    eapply extends_trans; [exact Hkeep1|].
    eapply extends_trans; [exact Hkeep2 | exact Hext'].
Qed.

Lemma forward_refines m s B N A coords residue_indices times atom_mask
  c r t k h o :
  nth_error h coords = Some (VCoords c) ->
  nth_error h residue_indices = Some (VIndices r) ->
  nth_error h times = Some (VTimes t) ->
  nth_error h atom_mask = Some (VMask k) ->
  nth_error h (alpha_cumprod_ref s)
    = Some (VRow (Schedule.alpha_cumprod (Diffusion.schedule m))) ->
  Diffusion.forward m B N A c r t k = Some o ->
  returns (forward m s B N A coords residue_indices times atom_mask)
    (fun out h' => nth_error h' out = Some (VCoords o)) h.
Proof.
  intros Hc Hr Ht Hk Hs Hfwd.
  unfold Diffusion.forward in Hfwd.
  destruct (Diffusion.cum_a_t m B t) as [cum|] eqn:Hcum; [|discriminate].
  injection Hfwd as <-.
  unfold forward.
  run_read. run_alloc. run_read. run_alloc. run_read. run_alloc.
  run_read. run_read. run_alloc. run_read. run_alloc.
  apply returns_bind. eapply returns_run_layers; try eassumption.
  intros p h' Hext final Hp1 Hp2. carry Hext.
  run_read. run_read.
  match goal with
  | |- returns (match ?x with Some _ => _ | None => _ end) _ _ =>
      change x with (Diffusion.cum_a_t m B t)
  end.
  rewrite Hcum.
  run_alloc. run_read. run_read. run_read. run_alloc. run_read. run_read.
  apply returns_alloc. intros out hout _ Hout. exact Hout.
Qed.

End StoreFacts.

(** C10: a call of [forward] changes no tensor that existed before the
    call: the caller's [coords], [residue_indices], [times] and [atom_mask]
    and the model's schedule tensors hold the same values afterwards (the
    layers work on the clone and on fresh tensors). *)
Theorem forward_leaves_heap_unchanged
  (m : Diffusion.ProteinDiffusionModel) (s : Store.schedule_refs) (B N A : nat)
  (coords residue_indices times atom_mask : Store.ref)
  (h h' : Store.heap) (out : Store.ref) :
  Store.forward m s B N A coords residue_indices times atom_mask h = Some (out, h') ->
  forall r v, nth_error h r = Some v -> nth_error h' r = Some v.
Proof.
  intros Hrun r v Hr.
  eapply StoreFacts.extends_lookup; [|exact Hr].
  eapply StoreFacts.grows_forward; exact Hrun.
Qed.

Lemma forward_leaves_heap_unchanged_witness :
  let m := Examples.two_step_model in
  let times := fun _ : nat => 1%Z in
  let h := Store.initial_heap m Examples.coords_6 Examples.residues_0 times
             Examples.mask_all in
  exists out h',
    Store.forward m Store.initial_refs 1 1 1 0%nat 1%nat 2%nat 3%nat h = Some (out, h') /\
    nth_error h' 0%nat = Some (Store.VCoords Examples.coords_6) /\
    nth_error h' 3%nat = Some (Store.VMask Examples.mask_all) /\
    nth_error h' 6%nat
      = Some (Store.VRow (Schedule.alpha_cumprod (Diffusion.schedule m))).
Proof.
  intros m times h.
  destruct (ForwardFacts.forward_valid_times m 1 1 1 Examples.coords_6
              Examples.residues_0 times Examples.mask_all
              (ForwardFacts.init_schedule_length 1 2 2 2 2 0 1 (36 / 100)
                 (4375 / 10000) (fun _ => Examples.layer_x))
              ltac:(intros; unfold times; simpl; lia))
    as (o & Ho & _).
  destruct (StoreFacts.forward_refines m Store.initial_refs 1 1 1 0%nat 1%nat 2%nat 3%nat
              Examples.coords_6 Examples.residues_0 times Examples.mask_all
              h o eq_refl eq_refl eq_refl eq_refl eq_refl Ho)
    as (out & h' & Hrun & _).
  exists out, h'. split; [exact Hrun|].
  repeat split;
    apply (forward_leaves_heap_unchanged m Store.initial_refs 1 1 1 0%nat 1%nat 2%nat 3%nat
             h h' out Hrun); reflexivity.
Defined.

(* ================================================================= *)
(** * Further properties of the code *)

(** ** The positional encoder: range, norm and symmetry *)

Module EncoderMore.
Import Encoder.

Lemma sum_list_app (l1 l2 : list R) :
  sum_list (l1 ++ l2) = sum_list l1 + sum_list l2.
Proof.
  induction l1 as [|x l1 IH]; simpl; [lra|]. rewrite IH. lra.
Qed.

Lemma sin_cos_squares (angles : list R) :
  sum_list (map (fun v => v * v) (map sin angles))
  + sum_list (map (fun v => v * v) (map cos angles))
  = INR (length angles).
Proof.
  induction angles as [|x l IH]; [simpl; lra|].
  change (length (x :: l)) with (S (length l)). rewrite S_INR, <- IH.
  simpl. pose proof (sin2_cos2 x) as H. unfold Rsqr in H. lra.
Qed.

Lemma angles_opp x d s :
  map (fun f => - x * PI * f) (inv_freq d s)
  = map Ropp (map (fun f => x * PI * f) (inv_freq d s)).
Proof. rewrite map_map. apply map_ext. intros f. ring. Qed.

Lemma encoding_halves x d s :
  firstn (Nat.div d 2) (sinusoidal_positional_encoding x d s)
  = map sin (map (fun f => x * PI * f) (inv_freq d s)) /\
  skipn (Nat.div d 2) (sinusoidal_positional_encoding x d s)
  = map cos (map (fun f => x * PI * f) (inv_freq d s)).
Proof.
  unfold sinusoidal_positional_encoding.
  assert (Hl : length (map sin (map (fun f => x * PI * f) (inv_freq d s)))
               = Nat.div d 2)
    by now rewrite !length_map, EncoderFacts.inv_freq_length.
  split.
  - rewrite <- Hl at 1. rewrite firstn_app, firstn_all, Nat.sub_diag.
    cbn [firstn]. now rewrite app_nil_r.
  - rewrite <- Hl at 1. rewrite skipn_app, skipn_all, Nat.sub_diag.
    reflexivity.
Qed.

Lemma encoding_opp x d s :
  sinusoidal_positional_encoding (- x) d s
  = map Ropp (firstn (Nat.div d 2) (sinusoidal_positional_encoding x d s))
    ++ skipn (Nat.div d 2) (sinusoidal_positional_encoding x d s).
Proof.
  destruct (encoding_halves x d s) as [-> ->].
  unfold sinusoidal_positional_encoding. cbv zeta.
  rewrite angles_opp, !map_map. f_equal; apply map_ext; intros f.
  - apply sin_neg.
  - apply cos_neg.
Qed.

Lemma cos_even_multiple (q : Z) : cos (IZR (2 * q) * PI) = 1.
Proof.
  assert (Hnat : forall n, cos (IZR (2 * Z.of_nat n) * PI) = 1).
  { intros n. rewrite mult_IZR, <- INR_IZR_INZ.
    replace (2 * INR n * PI) with (0 + 2 * INR n * PI) by ring.
    rewrite cos_period. apply cos_0. }
  destruct (Z_le_gt_dec 0 q) as [Hq | Hq].
  - rewrite <- (Z2Nat.id q Hq). apply Hnat.
  - rewrite <- cos_neg.
    replace (- (IZR (2 * q) * PI)) with (IZR (2 * Z.of_nat (Z.to_nat (- q))) * PI).
    + apply Hnat.
    + rewrite Z2Nat.id by lia. rewrite !mult_IZR, opp_IZR. ring.
Qed.

Lemma cos_integer_multiple (k : Z) :
  cos (IZR k * PI) = if Z.even k then 1 else -1.
Proof.
  destruct (Z.even k) eqn:Hk.
  - apply Z.even_spec in Hk. destruct Hk as [q ->]. apply cos_even_multiple.
  - assert (Ho : Z.odd k = true) by (rewrite <- Z.negb_even, Hk; reflexivity).
    apply Z.odd_spec in Ho. destruct Ho as [q ->].
    rewrite plus_IZR, Rmult_plus_distr_r, Rmult_1_l, neg_cos.
    now rewrite cos_even_multiple.
Qed.

Lemma inv_freq_first d s :
  (2 <= d)%nat -> nth 0 (inv_freq d s) 0 = 1.
Proof.
  intros Hd. unfold inv_freq.
  assert (Hh : (1 <= Nat.div d 2)%nat) by (apply Nat.div_le_lower_bound; lia).
  destruct (Nat.div d 2) as [|h]; [lia|]. cbn [seq map nth].
  replace (2 * INR 0 / INR d) with 0 by (simpl; unfold Rdiv; ring).
  unfold Rpower. rewrite Rmult_0_l, exp_0. lra.
Qed.

End EncoderMore.

(** X1: for a positive base [embed_size], every entry of an encoding lies
    in [-1, 1], and the squares of the entries add up to [embed_dim // 2],
    whatever the position. *)
Theorem encoding_is_bounded_with_fixed_norm (x : R) (embed_dim : nat) (embed_size : R) :
  0 < embed_size ->
  Forall (fun v => -1 <= v <= 1)
    (Encoder.sinusoidal_positional_encoding x embed_dim embed_size) /\
  sum_list (map (fun v => v * v)
              (Encoder.sinusoidal_positional_encoding x embed_dim embed_size))
  = INR (Nat.div embed_dim 2).
Proof.
  intros Hbase.
  unfold Encoder.sinusoidal_positional_encoding. cbv zeta. split.
  - apply Forall_app. split; apply Forall_forall; intros v Hv;
      apply in_map_iff in Hv; destruct Hv as (angle & <- & _).
    + apply SIN_bound.
    + apply COS_bound.
  - rewrite map_app, EncoderMore.sum_list_app, EncoderMore.sin_cos_squares.
    now rewrite length_map, EncoderFacts.inv_freq_length.
Qed.

Lemma encoding_is_bounded_with_fixed_norm_witness :
  Forall (fun v => -1 <= v <= 1)
    (Encoder.sinusoidal_positional_encoding 3 8 256) /\
  sum_list (map (fun v => v * v)
              (Encoder.sinusoidal_positional_encoding 3 8 256))
  = INR 4.
Proof.
  exact (encoding_is_bounded_with_fixed_norm 3 8 256 ltac:(lra)).
Defined.

(** X2: in a layer with a positive [max_len], the relative-position
    encoding of the edge (j, i) is that of the edge (i, j) with its sine half
    negated and its cosine half kept; on the diagonal it is zeros followed by
    ones. *)
Theorem rel_residue_enc_mirror (L : Egnn.EGNNLayer) (residue_indices : nat -> Z)
  (i j : nat) :
  0 < Egnn.max_len L ->
  let half := Nat.div (Egnn.edge_embed_dim L) 2 in
  Egnn.rel_residue_enc L residue_indices j i
  = map Ropp (firstn half (Egnn.rel_residue_enc L residue_indices i j))
    ++ skipn half (Egnn.rel_residue_enc L residue_indices i j) /\
  Egnn.rel_residue_enc L residue_indices i i = repeat 0 half ++ repeat 1 half.
Proof.
  intros Hbase half. unfold Egnn.rel_residue_enc, Egnn.rel_residue_indices. split.
  - replace (IZR (residue_indices j - residue_indices i))
      with (- IZR (residue_indices i - residue_indices j))
      by (rewrite <- opp_IZR; f_equal; lia).
    apply EncoderMore.encoding_opp.
  - rewrite Z.sub_diag. apply EncoderFacts.encoding_zero.
Qed.

Lemma rel_residue_enc_mirror_witness :
  Egnn.rel_residue_enc Examples.layer_x Examples.residues_0_1 1 0
  = map Ropp (firstn 1 (Egnn.rel_residue_enc Examples.layer_x
                          Examples.residues_0_1 0 1))
    ++ skipn 1 (Egnn.rel_residue_enc Examples.layer_x Examples.residues_0_1 0 1) /\
  Egnn.rel_residue_enc Examples.layer_x Examples.residues_0_1 0 0 = [0; 1].
Proof.
  exact (rel_residue_enc_mirror Examples.layer_x Examples.residues_0_1 0 1
           ltac:(simpl; lra)).
Defined.

(** X3: at an integer position [k] (a residue index or an index offset)
    the first frequency is 1, so the first sine feature is 0 and the first
    cosine feature is 1 for even [k] and -1 for odd [k]: the leading pair
    carries only the parity of the position. *)
Theorem encoding_of_integer_position (k : Z) (embed_dim : nat) (embed_size : R) :
  (2 <= embed_dim)%nat ->
  nth 0 (Encoder.sinusoidal_positional_encoding (IZR k) embed_dim embed_size) 0 = 0 /\
  nth (Nat.div embed_dim 2)
      (Encoder.sinusoidal_positional_encoding (IZR k) embed_dim embed_size) 0
  = if Z.even k then 1 else -1.
Proof.
  intros Hd.
  pose proof (EncoderMore.inv_freq_first embed_dim embed_size Hd) as Hf.
  assert (Hh : (1 <= Nat.div embed_dim 2)%nat)
    by (apply Nat.div_le_lower_bound; lia).
  assert (Hlen : length (Encoder.inv_freq embed_dim embed_size)
                 = Nat.div embed_dim 2) by apply EncoderFacts.inv_freq_length.
  unfold Encoder.sinusoidal_positional_encoding. cbv zeta.
  destruct (Encoder.inv_freq embed_dim embed_size) as [|f fs];
    [cbn [length] in Hlen; lia|].
  cbn [nth] in Hf. subst f. split.
  - cbn [map app nth]. apply sin_eq_0_1. exists k. ring.
  - rewrite app_nth2 by (rewrite !length_map, Hlen; lia).
    rewrite !length_map, Hlen, Nat.sub_diag. cbn [map nth].
    replace (IZR k * PI * 1) with (IZR k * PI) by ring.
    apply EncoderMore.cos_integer_multiple.
Qed.

Lemma encoding_of_integer_position_witness :
  (2 <= 8)%nat /\
  nth 0 (Encoder.sinusoidal_positional_encoding (IZR 3) 8 256) 0 = 0 /\
  nth 4 (Encoder.sinusoidal_positional_encoding (IZR 3) 8 256) 0 = -1.
Proof.
  split; [lia|].
  exact (encoding_of_integer_position 3 8 256 ltac:(lia)).
Defined.

(** ** The schedule for arbitrary arguments *)

Module ScheduleMore.
Import Schedule.

Lemma nth_removelast (l : list R) (i : nat) :
  (S i < length l)%nat -> nth i (removelast l) 0 = nth i l 0.
Proof.
  revert i. induction l as [|x l IH]; intros i Hi; [simpl in Hi; lia|].
  destruct l as [|y l]; [simpl in Hi; lia|].
  change (removelast (x :: y :: l)) with (x :: removelast (y :: l)).
  destruct i as [|i]; [reflexivity|].
  cbn [nth]. apply IH. simpl in *. lia.
Qed.

Lemma map_nth_R (f : R -> R) (l : list R) (i : nat) :
  (i < length l)%nat -> nth i (map f l) 0 = f (nth i l 0).
Proof.
  intros Hi. rewrite (nth_indep _ 0 (f 0)) by now rewrite length_map.
  apply map_nth.
Qed.

(** Each cumulative product is the previous one times the step's alpha. *)
Lemma cumprod_recurrence (beta_start beta_end : R) (diffusion_steps t : nat) :
  (t < diffusion_steps)%nat ->
  let s := make_schedule beta_start beta_end diffusion_steps in
  nth t (alpha_cumprod s) 0
  = nth t (alpha_cumprod_prev s) 0 * nth t (alphas s) 0.
Proof.
  intros Ht s. destruct t as [|t].
  - unfold s; cbn [alpha_cumprod_prev alpha_cumprod alphas make_schedule nth].
    rewrite ScheduleFacts.cumprod_head. ring.
  - unfold s; cbn [alpha_cumprod_prev alpha_cumprod alphas make_schedule nth].
    rewrite nth_removelast
      by (rewrite ScheduleFacts.cumprod_length, length_map,
            ScheduleFacts.linspace_length; lia).
    apply ScheduleFacts.cumprod_step.
    rewrite length_map, ScheduleFacts.linspace_length. lia.
Qed.

End ScheduleMore.

(** X4: for every [beta_start], [beta_end] and [diffusion_steps] (no
    condition on them), [betas], [alphas] and [alpha_cumprod] have length
    [diffusion_steps] while [alpha_cumprod_prev] has length
    [max 1 diffusion_steps] (the leading 1.0 is there even for an empty
    schedule), and at every step [t] the cumulative product satisfies
    [alpha_cumprod[t] = alpha_cumprod_prev[t] * alphas[t]] with
    [alphas[t] = 1 - betas[t]]. *)
Theorem schedule_recurrence (beta_start beta_end : R) (diffusion_steps : nat) :
  let s := make_schedule beta_start beta_end diffusion_steps in
  length (betas s) = diffusion_steps /\
  length (alphas s) = diffusion_steps /\
  length (alpha_cumprod s) = diffusion_steps /\
  length (alpha_cumprod_prev s) = Nat.max 1 diffusion_steps /\
  forall t, (t < diffusion_steps)%nat ->
    nth t (alphas s) 0 = 1 - nth t (betas s) 0 /\
    nth t (alpha_cumprod s) 0
    = nth t (alpha_cumprod_prev s) 0 * nth t (alphas s) 0.
Proof.
  intros s.
  assert (Hb : length (betas s) = diffusion_steps)
    by apply ScheduleFacts.linspace_length.
  assert (Ha : length (alphas s) = diffusion_steps)
    by (unfold s; simpl; now rewrite length_map, ScheduleFacts.linspace_length).
  assert (Hc : length (alpha_cumprod s) = diffusion_steps)
    by (unfold s; simpl;
        now rewrite ScheduleFacts.cumprod_length, length_map,
          ScheduleFacts.linspace_length).
  repeat split; try assumption.
  - unfold s; cbn [alpha_cumprod_prev make_schedule length].
    rewrite ScheduleFacts.removelast_length, ScheduleFacts.cumprod_length,
      length_map, ScheduleFacts.linspace_length. lia.
  - unfold s; simpl. apply ScheduleMore.map_nth_R.
    now rewrite ScheduleFacts.linspace_length.
  - now apply ScheduleMore.cumprod_recurrence.
Qed.

(** X5: for a representable schedule with [beta_start <= beta_end], at every
    step [t] [0 < alpha_cumprod[t] < alpha_cumprod_prev[t] <= 1]; so the
    square roots and the division of the sampler's mean update and of the
    trainer's noising are taken at admissible values. *)
Theorem schedule_prev_dominates (beta_start beta_end : R) (diffusion_steps t : nat) :
  Float32.representable_schedule beta_start beta_end diffusion_steps ->
  beta_start <= beta_end ->
  (t < diffusion_steps)%nat ->
  let s := make_schedule beta_start beta_end diffusion_steps in
  0 < nth t (alpha_cumprod s) 0 /\
  nth t (alpha_cumprod s) 0 < nth t (alpha_cumprod_prev s) 0 /\
  nth t (alpha_cumprod_prev s) 0 <= 1.
Proof.
  intros Hrep Ho Ht s.
  destruct (representable_schedule_betas _ _ _ Hrep) as [Hs He].
  pose proof (ScheduleFacts.alpha_cumprod_range beta_start beta_end
                diffusion_steps Hs Ho He) as Hrange.
  pose proof (ScheduleFacts.alphas_range beta_start beta_end
                diffusion_steps Hs Ho He t Ht) as Halpha.
  pose proof (ScheduleMore.cumprod_recurrence beta_start beta_end
                diffusion_steps t Ht) as Hstep.
  cbv zeta in Hstep. fold s in Hstep.
  pose proof (Hrange t Ht) as Hct. fold s in Hct.
  assert (Hprev : 0 < nth t (alpha_cumprod_prev s) 0 <= 1).
  { destruct t as [|t].
    - unfold s; simpl. lra.
    - unfold s; cbn [alpha_cumprod_prev make_schedule nth].
      rewrite ScheduleMore.nth_removelast
        by (rewrite ScheduleFacts.cumprod_length, length_map,
              ScheduleFacts.linspace_length; lia).
      pose proof (Hrange t ltac:(lia)) as [H0 H1].
      split; [exact H0 | apply Rlt_le; exact H1]. }
  fold s in Halpha.
  set (c := nth t (alpha_cumprod s) 0) in *.
  set (p := nth t (alpha_cumprod_prev s) 0) in *.
  set (al := nth t (alphas s) 0) in *.
  repeat split; try lra. nra.
Qed.

Lemma schedule_prev_dominates_witness :
  let s := make_schedule (1 / 10000) (2 / 100) 1000 in
  0 < nth 999 (alpha_cumprod s) 0 /\
  nth 999 (alpha_cumprod s) 0 < nth 999 (alpha_cumprod_prev s) 0 /\
  nth 999 (alpha_cumprod_prev s) 0 <= 1.
Proof.
  exact (schedule_prev_dominates (1 / 10000) (2 / 100) 1000 999
           training_schedule_representable ltac:(lra) ltac:(lia)).
Defined.

(** ** [forward]: which time steps are accepted, and what they select *)

Module ForwardMore.
Import Diffusion.

Lemma quot_ge_iff (t T : Z) :
  (0 < T)%Z -> (T <= Z.quot t T <-> T * T <= t)%Z.
Proof.
  intros HT. pose proof (Z.quot_rem' t T) as Hqr.
  destruct (Z_le_gt_dec 0 t) as [Ht | Ht].
  - pose proof (Z.rem_bound_pos_pos t T HT Ht). split; intros; nia.
  - pose proof (Z.rem_bound_pos_neg t T HT ltac:(lia)). split; intros; nia.
Qed.

Lemma quot_lt_iff (t T : Z) :
  (0 < T)%Z -> (Z.quot t T < - T <-> t <= - (T * T) - T)%Z.
Proof.
  intros HT. pose proof (Z.quot_rem' t T) as Hqr.
  destruct (Z_le_gt_dec 0 t) as [Ht | Ht].
  - pose proof (Z.rem_bound_pos_pos t T HT Ht). split; intros; nia.
  - pose proof (Z.rem_bound_pos_neg t T HT ltac:(lia)). split; intros; nia.
Qed.

Lemma quot_range (t T : Z) :
  (0 < T)%Z -> (0 <= t < T * T)%Z -> (0 <= Z.quot t T < T)%Z.
Proof.
  intros HT Ht. split.
  - apply Z.quot_pos; lia.
  - destruct (Z_lt_ge_dec (Z.quot t T) T) as [|H]; [assumption|].
    apply Z.ge_le, quot_ge_iff in H; lia.
Qed.

End ForwardMore.

(** X6: for a well-shaped model with exact time steps and a schedule of
    [diffusion_steps = T] entries strictly between 0 and 1, [forward]
    returns on every batch of time steps [t] with [0 <= t < T * T], and its
    output is the masked closed form taken at [alpha_cumprod[t div T]]:
    every valid time step ([t < T]) reads [alpha_cumprod[0]], and the time
    steps in [[T, T * T)] are accepted as well. *)
Theorem forward_reads_entry_t_div_T
  (m : Diffusion.ProteinDiffusionModel) (B N A : nat)
  (coords : nat -> nat -> nat -> vec3) (residue_indices : nat -> nat -> Z)
  (times : nat -> Z) (atom_mask : nat -> nat -> nat -> R) :
  let T := Z.of_nat (Diffusion.diffusion_steps m) in
  let acp := Schedule.alpha_cumprod (Diffusion.schedule m) in
  Shapes.model_well_shaped m ->
  Float32.exact_time_steps (Diffusion.diffusion_steps m) ->
  length acp = Diffusion.diffusion_steps m ->
  (forall c, In c acp -> 0 < c < 1) ->
  (forall b, (b < B)%nat -> (0 <= times b < T * T)%Z) ->
  exists out,
    Diffusion.forward m B N A coords residue_indices times atom_mask = Some out /\
    forall b n a, (b < B)%nat ->
      out b n a =
      vscale (atom_mask b n a)
        (Diffusion.noise_extraction
           (nth (Z.to_nat (times b / T)) acp 0) (coords b n a)
           (Diffusion.curr_coords m N A coords residue_indices times atom_mask
              b n a)).
Proof.
  intros T acp _ _ Hlen _ Ht.
  destruct (Nat.eq_dec B 0) as [-> | HB].
  - exists (fun b n a =>
              vscale (atom_mask b n a)
                (Diffusion.predicted_noise m N A coords residue_indices times
                   atom_mask [] b n a)).
    split; [reflexivity | intros; lia].
  - assert (HT : (0 < T)%Z).
    { specialize (Ht 0%nat ltac:(lia)). unfold T in *. nia. }
    apply (ForwardFacts.forward_value m B N A coords residue_indices times
             atom_mask (fun b => nth (Z.to_nat (times b / T)) acp 0)).
    intros b Hb. specialize (Ht b Hb).
    rewrite ForwardFacts.schedule_index_quot by (unfold T in HT; lia).
    fold T. pose proof (ForwardMore.quot_range (times b) T HT Ht) as Hq.
    rewrite Z.quot_div_nonneg in * by lia.
    rewrite IndexFacts.tensor_index_in_range; [reflexivity|].
    fold acp. rewrite Hlen. fold T. lia.
Qed.

Lemma forward_reads_entry_t_div_T_witness :
  exists out,
    Diffusion.forward Examples.two_step_model 1 1 1 Examples.coords_6
      Examples.residues_0 (fun _ => 3%Z) Examples.mask_all = Some out /\
    forall b n a, (b < 1)%nat ->
      out b n a =
      vscale (Examples.mask_all b n a)
        (Diffusion.noise_extraction
           (nth (Z.to_nat (3 / 2))
              (Schedule.alpha_cumprod (Diffusion.schedule Examples.two_step_model)) 0)
           (Examples.coords_6 b n a)
           (Diffusion.curr_coords Examples.two_step_model 1 1 Examples.coords_6
              Examples.residues_0 (fun _ => 3%Z) Examples.mask_all b n a)).
Proof.
  exact (forward_reads_entry_t_div_T Examples.two_step_model 1 1 1
           Examples.coords_6 Examples.residues_0 (fun _ => 3%Z)
           Examples.mask_all two_step_model_well_shaped
           two_step_exact_time_steps eq_refl two_step_entries
           ltac:(intros; simpl; lia)).
Defined.

(** X7: for a well-shaped model with exact time steps and a schedule of
    length [diffusion_steps = T >= 1], [forward] raises (the index error)
    exactly when some time step of the batch is at least [T * T] or at most
    [- T * T - T]; every other time step, in range or not, is accepted. *)
Theorem forward_raises_iff_time_step_far_out
  (m : Diffusion.ProteinDiffusionModel) (B N A : nat)
  (coords : nat -> nat -> nat -> vec3) (residue_indices : nat -> nat -> Z)
  (times : nat -> Z) (atom_mask : nat -> nat -> nat -> R) :
  let T := Z.of_nat (Diffusion.diffusion_steps m) in
  Shapes.model_well_shaped m ->
  Float32.exact_time_steps (Diffusion.diffusion_steps m) ->
  length (Schedule.alpha_cumprod (Diffusion.schedule m)) = Diffusion.diffusion_steps m ->
  (1 <= Diffusion.diffusion_steps m)%nat ->
  (Diffusion.forward m B N A coords residue_indices times atom_mask = None <->
   exists b, (b < B)%nat /\ (T * T <= times b \/ times b <= - (T * T) - T)%Z).
Proof.
  intros T _ _ Hlen HT.
  assert (HTz : (0 < T)%Z) by (unfold T; lia).
  assert (Hidx : forall b, Diffusion.schedule_index m times b = Z.quot (times b) T)
    by (intros b; now apply ForwardFacts.schedule_index_quot).
  rewrite ForwardFacts.forward_error, Hlen. fold T.
  split; intros (b & Hb & Hr); exists b; (split; [exact Hb|]);
    rewrite Hidx in *.
  - destruct Hr as [Hr | Hr].
    + right. now apply ForwardMore.quot_lt_iff.
    + left. now apply ForwardMore.quot_ge_iff.
  - destruct Hr as [Hr | Hr].
    + right. now apply ForwardMore.quot_ge_iff.
    + left. now apply ForwardMore.quot_lt_iff.
Qed.

(** With two diffusion steps the time step -6 is the first negative one
    that raises. *)
Lemma forward_raises_iff_time_step_far_out_witness :
  Diffusion.forward Examples.two_step_model 1 1 1 Examples.coords_6
    Examples.residues_0 (fun _ => (-6)%Z) Examples.mask_all = None.
Proof.
  apply (proj2 (forward_raises_iff_time_step_far_out Examples.two_step_model
                  1 1 1 Examples.coords_6 Examples.residues_0 (fun _ => (-6)%Z)
                  Examples.mask_all two_step_model_well_shaped
                  two_step_exact_time_steps eq_refl ltac:(simpl; lia))).
  exists 0%nat. split; [lia | right; simpl; lia].
Defined.

(** ** The EGNN layer and the layer stack: geometry *)

Module EgnnMore.
Import NN Egnn.

Lemma vsum_n_zero (f : nat -> vec3) (n : nat) :
  (forall k, (k < n)%nat -> f k = vzero) -> vsum_n f n = vzero.
Proof.
  induction n as [|n IH]; intros H; [reflexivity|].
  cbn [vsum_n]. rewrite IH by (intros; apply H; lia). rewrite H by lia.
  unfold vzero. vec3_ring.
Qed.

Lemma vsum_n_opp (f : nat -> vec3) (n : nat) :
  vsum_n (fun k => vscale (-1) (f k)) n = vscale (-1) (vsum_n f n).
Proof.
  induction n as [|n IH]; [unfold vzero; vec3_ring|].
  cbn [vsum_n]. rewrite IH. vec3_ring.
Qed.

Lemma vsum_n_mat (M : mat3) (f : nat -> vec3) (n : nat) :
  vsum_n (fun k => mat_apply M (f k)) n = mat_apply M (vsum_n f n).
Proof.
  induction n as [|n IH].
  - unfold vzero, mat_apply, vdot. vec3_ring.
  - cbn [vsum_n]. rewrite IH. unfold mat_apply, vdot. vec3_ring.
Qed.

Lemma directional_vectors_diag A coords i :
  directional_vectors A coords i i = vzero.
Proof.
  unfold directional_vectors. rewrite vsum_n_zero.
  - unfold vzero, vdiv. apply vec3_eq; simpl; unfold Rdiv; ring.
  - intros k _. unfold vzero. vec3_ring.
Qed.

Lemma directional_vectors_swap A coords i j :
  directional_vectors A coords j i = vscale (-1) (directional_vectors A coords i j).
Proof.
  unfold directional_vectors.
  rewrite (EgnnFacts.vsum_n_ext
             (fun a => vsub (coords j a) (coords i a))
             (fun a => vscale (-1) (vsub (coords i a) (coords j a))))
    by (intros k _; vec3_ring).
  rewrite vsum_n_opp. apply vec3_eq; simpl; unfold Rdiv; ring.
Qed.

Lemma directional_vectors_linear (M : mat3) A coords i j :
  directional_vectors A (rotate M coords) i j
  = mat_apply M (directional_vectors A coords i j).
Proof.
  unfold directional_vectors, rotate.
  rewrite (EgnnFacts.vsum_n_ext
             (fun a => vsub (mat_apply M (coords i a)) (mat_apply M (coords j a)))
             (fun a => mat_apply M (vsub (coords i a) (coords j a))))
    by (intros k _; unfold mat_apply, vdot; vec3_ring).
  rewrite vsum_n_mat. unfold mat_apply, vdot, vdiv.
  apply vec3_eq; simpl; unfold Rdiv; ring.
Qed.

Lemma directional_vectors_ext A (c1 c2 : nat -> nat -> vec3) i j :
  (forall n a, c1 n a = c2 n a) ->
  directional_vectors A c1 i j = directional_vectors A c2 i j.
Proof.
  intros H. unfold directional_vectors. f_equal.
  apply EgnnFacts.vsum_n_ext. intros k _. now rewrite !H.
Qed.

(** A layer sees its coordinates only through the directional vectors:
    equal directional vectors and equal node features give equal messages,
    coordinate updates and updated node features. *)
Lemma layer_congruence L N A (c1 c2 : nat -> nat -> vec3)
  (h1 h2 : nat -> list R) ridx :
  (forall i j, directional_vectors A c1 i j = directional_vectors A c2 i j) ->
  (forall n, h1 n = h2 n) ->
  (forall i j, edge_messages L A c1 h1 ridx i j = edge_messages L A c2 h2 ridx i j) /\
  (forall i, coord_updates L N A c1 h1 ridx i = coord_updates L N A c2 h2 ridx i) /\
  (forall i, updated_node_features L N A c1 h1 ridx i
             = updated_node_features L N A c2 h2 ridx i).
Proof.
  intros Hd Hh.
  assert (Hm : forall i j,
    edge_messages L A c1 h1 ridx i j = edge_messages L A c2 h2 ridx i j).
  { intros i j. unfold edge_messages, edge_features. now rewrite Hd, !Hh. }
  split; [exact Hm|]. split.
  - intros i. unfold coord_updates. apply EgnnFacts.vsum_n_ext. intros j _.
    unfold coord_gate. now rewrite Hm, Hd.
  - intros i. unfold updated_node_features, aggregated_messages.
    rewrite Hh. do 3 f_equal. apply EgnnFacts.rows_sum_ext. intros j _. apply Hm.
Qed.

Section Stack.

Variables N A : nat.
Variable atom_mask : nat -> nat -> nat -> R.
Variable residue_indices : nat -> nat -> Z.

Let step := fun (st : (nat -> nat -> nat -> vec3) * (nat -> nat -> list R))
                (layer : EGNNLayer) =>
  Egnn.forward layer N A (fst st) (snd st) atom_mask residue_indices.

(** Within a residue, atoms with the same mask entry are moved alike. *)
Lemma stack_keeps_residue_shape b n a a' :
  atom_mask b n a = atom_mask b n a' ->
  forall layers c h,
    vsub (fst (fold_left step layers (c, h)) b n a)
         (fst (fold_left step layers (c, h)) b n a')
    = vsub (c b n a) (c b n a').
Proof.
  intros Hmask. induction layers as [|L rest IH]; intros c h; [reflexivity|].
  cbn [fold_left]. unfold step at 2 4, Egnn.forward. cbn [fst snd].
  rewrite IH. unfold updated_coords. rewrite Hmask. vec3_ring.
Qed.

(** A translation of the input passes through the stack. *)
Lemma stack_translate (v : vec3) :
  forall layers c1 c2 h1 h2,
    (forall b n a, c1 b n a = vadd (c2 b n a) v) ->
    (forall b n, h1 b n = h2 b n) ->
    (forall b n a,
       fst (fold_left step layers (c1, h1)) b n a
       = vadd (fst (fold_left step layers (c2, h2)) b n a) v) /\
    (forall b n,
       snd (fold_left step layers (c1, h1)) b n
       = snd (fold_left step layers (c2, h2)) b n).
Proof.
  induction layers as [|L rest IH]; intros c1 c2 h1 h2 Hc Hh; [now split|].
  cbn [fold_left]. unfold step at 2 4 6 8, Egnn.forward. cbn [fst snd].
  apply IH.
  - intros b n a.
    destruct (layer_congruence L N A (c1 b) (c2 b) (h1 b) (h2 b)
                (residue_indices b)) as (_ & Hu & _).
    + intros i j.
      rewrite (directional_vectors_ext A (c1 b) (translate v (c2 b)))
        by (intros; apply Hc).
      apply EgnnFacts.directional_vectors_translate.
    + intros k. apply Hh.
    + unfold updated_coords. rewrite Hu, Hc. vec3_ring.
  - intros b n.
    destruct (layer_congruence L N A (c1 b) (c2 b) (h1 b) (h2 b)
                (residue_indices b)) as (_ & _ & Hf).
    + intros i j.
      rewrite (directional_vectors_ext A (c1 b) (translate v (c2 b)))
        by (intros; apply Hc).
      apply EgnnFacts.directional_vectors_translate.
    + intros k. apply Hh.
    + apply Hf.
Qed.

(** Residues with a common centroid are not moved. *)
Lemma stack_fixes_common_centroid (c0 : nat -> nat -> nat -> vec3) :
  (forall b i j, (i < N)%nat -> (j < N)%nat ->
     directional_vectors A (c0 b) i j = vzero) ->
  forall layers c h,
    (forall b n a, (n < N)%nat -> c b n a = c0 b n a) ->
    forall b n a, (n < N)%nat ->
      fst (fold_left step layers (c, h)) b n a = c0 b n a.
Proof.
  intros Hzero. induction layers as [|L rest IH]; intros c h Hc b n a Hn;
    [now apply Hc|].
  cbn [fold_left]. apply IH; [|exact Hn]. intros b' n' a' Hn'.
  unfold step, Egnn.forward. cbn [fst snd]. unfold updated_coords, coord_updates.
  rewrite vsum_n_zero.
  - rewrite Hc by exact Hn'. unfold vzero. vec3_ring.
  - intros j Hj.
    replace (directional_vectors A (c b') n' j) with vzero;
      [unfold vzero; vec3_ring|].
    rewrite <- (Hzero b' n' j Hn' Hj). unfold directional_vectors. f_equal.
    apply EgnnFacts.vsum_n_ext. intros k _. now rewrite !Hc.
Qed.

End Stack.

End EgnnMore.

(** X9: the directional vector of an edge vanishes on the diagonal, changes
    sign when the edge is reversed, and commutes with every linear map of
    the coordinates, in particular with every rotation. *)
Theorem directional_vectors_symmetries (A : nat) (coords : nat -> nat -> vec3)
  (M : mat3) (i j : nat) :
  Egnn.directional_vectors A coords i i = vzero /\
  Egnn.directional_vectors A coords j i
  = vscale (-1) (Egnn.directional_vectors A coords i j) /\
  Egnn.directional_vectors A (rotate M coords) i j
  = mat_apply M (Egnn.directional_vectors A coords i j).
Proof.
  split; [apply EgnnMore.directional_vectors_diag|].
  split; [apply EgnnMore.directional_vectors_swap|].
  apply EgnnMore.directional_vectors_linear.
Qed.

(** X10: two atom slots of one residue that carry the same mask entry are
    displaced by the same vector, by one layer and by the whole layer stack:
    their difference vector after the stack is the one of the input, so the
    network cannot change the geometry inside a residue. *)
Theorem residue_shape_is_preserved
  (m : Diffusion.ProteinDiffusionModel) (N A : nat)
  (coords : nat -> nat -> nat -> vec3) (residue_indices : nat -> nat -> Z)
  (times : nat -> Z) (atom_mask : nat -> nat -> nat -> R) (b n a a' : nat) :
  atom_mask b n a = atom_mask b n a' ->
  (forall (L : Egnn.EGNNLayer) (node_features : nat -> nat -> list R),
     vsub (fst (Egnn.forward L N A coords node_features atom_mask residue_indices) b n a)
          (fst (Egnn.forward L N A coords node_features atom_mask residue_indices) b n a')
     = vsub (coords b n a) (coords b n a')) /\
  vsub (Diffusion.curr_coords m N A coords residue_indices times atom_mask b n a)
       (Diffusion.curr_coords m N A coords residue_indices times atom_mask b n a')
  = vsub (coords b n a) (coords b n a').
Proof.
  intros Hmask. split.
  - intros L h.
    exact (EgnnMore.stack_keeps_residue_shape N A atom_mask residue_indices
             b n a a' Hmask [L] coords h).
  - unfold Diffusion.curr_coords, Diffusion.run_layers.
    now apply EgnnMore.stack_keeps_residue_shape.
Qed.

Lemma residue_shape_is_preserved_witness :
  vsub (fst (Egnn.forward Examples.layer_x 2 2
               (fun _ n a => mk3 (INR n) (INR a) 0) (fun _ => Examples.features_0)
               Examples.mask_all (fun _ => Examples.residues_0_1)) 0%nat 0%nat 0%nat)
       (fst (Egnn.forward Examples.layer_x 2 2
               (fun _ n a => mk3 (INR n) (INR a) 0) (fun _ => Examples.features_0)
               Examples.mask_all (fun _ => Examples.residues_0_1)) 0%nat 0%nat 1%nat)
  = vsub (mk3 (INR 0) (INR 0) 0) (mk3 (INR 0) (INR 1) 0).
Proof.
  exact (proj1 (residue_shape_is_preserved Examples.two_step_model 2 2
                  (fun _ n a => mk3 (INR n) (INR a) 0)
                  (fun _ => Examples.residues_0_1) (fun _ => 0%Z)
                  Examples.mask_all 0 0 0 1 eq_refl)
           Examples.layer_x (fun _ => Examples.features_0)).
Defined.

(** X11: for a well-shaped model whose schedule lookup succeeds, translating
    every input coordinate by [v] translates the output of the layer stack
    by [v], and adds to every entry of [forward]'s output the
    masked closed form of [v] against itself,
    [atom_mask * (v - sqrt a * v) / sqrt (1 - a)] with [a] the schedule entry
    of that batch element: the predicted noise is not translation
    invariant. *)
Theorem forward_under_translation
  (m : Diffusion.ProteinDiffusionModel) (B N A : nat)
  (coords : nat -> nat -> nat -> vec3) (residue_indices : nat -> nat -> Z)
  (times : nat -> Z) (atom_mask : nat -> nat -> nat -> R) (v : vec3)
  (cum : list R) :
  Shapes.model_well_shaped m ->
  Diffusion.cum_a_t m B times = Some cum ->
  let moved := fun b => translate v (coords b) in
  (forall b n a,
     Diffusion.curr_coords m N A moved residue_indices times atom_mask b n a
     = vadd (Diffusion.curr_coords m N A coords residue_indices times atom_mask
               b n a) v) /\
  exists out out',
    Diffusion.forward m B N A coords residue_indices times atom_mask = Some out /\
    Diffusion.forward m B N A moved residue_indices times atom_mask = Some out' /\
    forall b n a,
      out' b n a
      = vadd (out b n a)
          (vscale (atom_mask b n a)
             (Diffusion.noise_extraction (nth b cum 0) v v)).
Proof.
  intros _ Hcum moved.
  assert (Hstack : forall b n a,
    Diffusion.curr_coords m N A moved residue_indices times atom_mask b n a
    = vadd (Diffusion.curr_coords m N A coords residue_indices times atom_mask
              b n a) v).
  { unfold Diffusion.curr_coords, Diffusion.run_layers.
    apply (EgnnMore.stack_translate N A atom_mask residue_indices v).
    - intros b n a. reflexivity.
    - intros b n. reflexivity. }
  split; [exact Hstack|].
  unfold Diffusion.forward. rewrite Hcum.
  eexists. eexists. split; [reflexivity|]. split; [reflexivity|].
  intros b n a. cbv beta. unfold Diffusion.predicted_noise.
  rewrite Hstack. unfold moved, translate, Diffusion.noise_extraction.
  apply vec3_eq; simpl; unfold Rdiv; ring.
Qed.

Lemma forward_under_translation_witness :
  exists out out',
    Diffusion.forward Examples.two_step_model 1 1 1 Examples.coords_6
      Examples.residues_0 (fun _ => (-2)%Z) Examples.mask_all = Some out /\
    Diffusion.forward Examples.two_step_model 1 1 1
      (fun b => translate (mk3 1 0 0) (Examples.coords_6 b))
      Examples.residues_0 (fun _ => (-2)%Z) Examples.mask_all = Some out' /\
    forall b n a,
      out' b n a
      = vadd (out b n a)
          (vscale (Examples.mask_all b n a)
             (Diffusion.noise_extraction
                (nth b [nth 1 (Schedule.alpha_cumprod
                                 (Diffusion.schedule Examples.two_step_model)) 0] 0)
                (mk3 1 0 0) (mk3 1 0 0))).
Proof.
  assert (Hcum : Diffusion.cum_a_t Examples.two_step_model 1 (fun _ => (-2)%Z)
                 = Some [nth 1 (Schedule.alpha_cumprod
                                  (Diffusion.schedule Examples.two_step_model)) 0]).
  { unfold Diffusion.cum_a_t.
    rewrite (IndexFacts.tensor_index_all_some _ _
               (fun _ => nth 1 (Schedule.alpha_cumprod
                                  (Diffusion.schedule Examples.two_step_model)) 0) 1).
    - reflexivity.
    - intros b _.
      rewrite ForwardFacts.schedule_index_quot by (simpl; lia). reflexivity. }
  exact (proj2 (forward_under_translation Examples.two_step_model 1 1 1
                  Examples.coords_6 Examples.residues_0 (fun _ => (-2)%Z)
                  Examples.mask_all (mk3 1 0 0) _ two_step_model_well_shaped
                  Hcum)).
Defined.

(** X12: when the residues of every batch element share one centroid (all
    directional vectors between residues of the tensor vanish), no layer and
    no layer stack moves any coordinate, whatever the weights; a sequence of
    a single residue is always such an input. *)
Theorem common_centroid_is_fixed
  (m : Diffusion.ProteinDiffusionModel) (N A : nat)
  (coords : nat -> nat -> nat -> vec3) (residue_indices : nat -> nat -> Z)
  (times : nat -> Z) (atom_mask : nat -> nat -> nat -> R) :
  (forall b i j, (i < N)%nat -> (j < N)%nat ->
     Egnn.directional_vectors A (coords b) i j = vzero) ->
  forall b n a, (n < N)%nat ->
    (forall (L : Egnn.EGNNLayer) (node_features : nat -> nat -> list R),
       fst (Egnn.forward L N A coords node_features atom_mask residue_indices) b n a
       = coords b n a) /\
    Diffusion.curr_coords m N A coords residue_indices times atom_mask b n a
    = coords b n a.
Proof.
  intros Hzero b n a Hn. split.
  - intros L h.
    exact (EgnnMore.stack_fixes_common_centroid N A atom_mask residue_indices
             coords Hzero [L] coords h (fun _ _ _ _ => eq_refl) b n a Hn).
  - unfold Diffusion.curr_coords, Diffusion.run_layers.
    apply (EgnnMore.stack_fixes_common_centroid N A atom_mask residue_indices
             coords Hzero); [intros; reflexivity | exact Hn].
Qed.

Lemma common_centroid_is_fixed_witness :
  fst (Egnn.forward Examples.layer_x 1 2 (fun _ _ a => mk3 (INR a) 0 0)
         (fun _ => Examples.features_0) Examples.mask_all
         (fun _ => Examples.residues_0_1)) 0%nat 0%nat 1%nat
  = mk3 (INR 1) 0 0.
Proof.
  exact (proj1 (common_centroid_is_fixed Examples.two_step_model 1 2
                  (fun _ _ a => mk3 (INR a) 0 0)
                  (fun _ => Examples.residues_0_1) (fun _ => 0%Z)
                  Examples.mask_all
                  ltac:(intros b i j Hi Hj;
                        replace i with 0%nat by lia; replace j with 0%nat by lia;
                        apply EgnnMore.directional_vectors_diag)
                  0%nat 0%nat 1%nat ltac:(lia))
           Examples.layer_x (fun _ => Examples.features_0)).
Defined.

(** ** The sampler *)

Module SamplerFacts.
Import SamplerLoop.

Lemma backbone_atom_mask_some num_atoms :
  (5 <= num_atoms)%nat ->
  backbone_atom_mask num_atoms
  = Some (fun _ _ a => if existsb (Nat.eqb a) backbone_indices then 1 else 0).
Proof.
  intros H. unfold backbone_atom_mask, backbone_indices. cbn [forallb].
  repeat match goal with
         | |- context [(?i <? num_atoms)%nat] =>
             replace (i <? num_atoms)%nat with true
               by (symmetry; apply Nat.ltb_lt; lia)
         end.
  reflexivity.
Qed.

Lemma backbone_atom_mask_none num_atoms :
  (num_atoms <= 4)%nat -> backbone_atom_mask num_atoms = None.
Proof.
  intros H. unfold backbone_atom_mask, backbone_indices. cbn [forallb].
  replace (4 <? num_atoms)%nat with false by (symmetry; apply Nat.ltb_ge; lia).
  now rewrite !andb_false_r.
Qed.



Section Steps.

Variable model : Diffusion.ProteinDiffusionModel.
Variable max_residues : nat.
Variable noise_scale : R.
Variable step_noise : nat -> nat -> nat -> nat -> vec3.
Variable atom_mask : nat -> nat -> nat -> R.

Let T := Diffusion.diffusion_steps model.
Hypothesis Hacp :
  length (Schedule.alpha_cumprod (Diffusion.schedule model)) = T.
Hypothesis Hprev :
  length (Schedule.alpha_cumprod_prev (Diffusion.schedule model)) = T.

Lemma step_returns t coords :
  (t < T)%nat ->
  exists coords',
    step model max_residues noise_scale step_noise atom_mask t coords = Some coords'.
Proof.
  intros Ht. unfold step.
  destruct (ForwardFacts.forward_valid_times model 1 max_residues
              (Diffusion.num_atoms model) coords residue_indices
              (fun _ => Z.of_nat t) atom_mask Hacp)
    as (pn & -> & _); [intros; fold T; lia|].
  rewrite !IndexFacts.tensor_index_in_range by (rewrite ?Hacp, ?Hprev; lia).
  eexists. reflexivity.
Qed.

Lemma step_raises t coords :
  (T <= t)%nat ->
  step model max_residues noise_scale step_noise atom_mask t coords = None.
Proof.
  intros Ht. unfold step.
  destruct (Diffusion.forward _ _ _ _ _ _ _ _); [|reflexivity].
  assert (Hn : Diffusion.tensor_index
                 (Schedule.alpha_cumprod (Diffusion.schedule model)) (Z.of_nat t)
               = None)
    by (apply IndexFacts.tensor_index_error; rewrite Hacp; lia).
  rewrite Hn.
  destruct (Diffusion.tensor_index (Schedule.alpha_cumprod_prev _) _);
    reflexivity.
Qed.

Lemma loop_returns k :
  (k <= T)%nat -> forall coords,
  exists coords',
    loop model max_residues noise_scale step_noise atom_mask k coords = Some coords'.
Proof.
  induction k as [|t IH]; intros Hk coords; [now exists coords|].
  cbn [loop]. destruct (step_returns t coords ltac:(lia)) as (c' & ->).
  apply IH. lia.
Qed.

Lemma loop_raises k coords :
  (T < k)%nat ->
  loop model max_residues noise_scale step_noise atom_mask k coords = None.
Proof.
  intros Hk. destruct k as [|t]; [lia|].
  cbn [loop]. now rewrite step_raises by lia.
Qed.

End Steps.


Lemma sample_returns model max_residues init_scale noise_scale init_noise
  step_noise diffusion_steps :
  length (Schedule.alpha_cumprod (Diffusion.schedule model))
    = Diffusion.diffusion_steps model ->
  length (Schedule.alpha_cumprod_prev (Diffusion.schedule model))
    = Diffusion.diffusion_steps model ->
  (5 <= Diffusion.num_atoms model)%nat ->
  (diffusion_steps <= Diffusion.diffusion_steps model)%nat ->
  exists out,
    sample_protein_backbone model max_residues init_scale noise_scale init_noise
      step_noise diffusion_steps = Some out.
Proof.
  intros Hacp Hprev Hatoms Hsteps. unfold sample_protein_backbone. cbv zeta.
  rewrite backbone_atom_mask_some by assumption.
  destruct (loop_returns model max_residues noise_scale step_noise
              (fun _ _ a => if existsb (Nat.eqb a) backbone_indices then 1 else 0)
              Hacp Hprev diffusion_steps Hsteps
              (fun b n a => vscale init_scale (init_noise b n a)))
    as (c' & ->).
  eexists. reflexivity.
Qed.


End SamplerFacts.

(** X13: for a well-shaped model whose schedule arrays have length
    [diffusion_steps = T] and at least one residue,
    [sample_protein_backbone] raises exactly when the model has fewer than
    five atom slots per residue (backbone column 4 does not exist) or when it
    is asked for more than [T] steps (the schedule lookups of lines 46-47 run
    out); otherwise it returns. *)
Theorem sampler_raises_iff
  (model : Diffusion.ProteinDiffusionModel) (max_residues : nat)
  (init_scale noise_scale : R) (init_noise : nat -> nat -> nat -> vec3)
  (step_noise : nat -> nat -> nat -> nat -> vec3) (diffusion_steps : nat) :
  Shapes.model_well_shaped model ->
  (1 <= max_residues)%nat ->
  length (Schedule.alpha_cumprod (Diffusion.schedule model))
    = Diffusion.diffusion_steps model ->
  length (Schedule.alpha_cumprod_prev (Diffusion.schedule model))
    = Diffusion.diffusion_steps model ->
  (SamplerLoop.sample_protein_backbone model max_residues init_scale noise_scale
     init_noise step_noise diffusion_steps = None <->
   (Diffusion.num_atoms model <= 4 \/
    Diffusion.diffusion_steps model < diffusion_steps)%nat).
Proof.
  intros _ _ Hacp Hprev. split.
  - intros Hnone.
    destruct (Nat.le_gt_cases (Diffusion.num_atoms model) 4) as [|Hatoms];
      [now left|].
    destruct (Nat.le_gt_cases diffusion_steps (Diffusion.diffusion_steps model))
      as [Hsteps|]; [|now right].
    destruct (SamplerFacts.sample_returns model max_residues init_scale
                noise_scale init_noise step_noise diffusion_steps Hacp Hprev
                ltac:(lia) Hsteps) as (out & Hout).
    congruence.
  - intros [Hatoms | Hsteps]; unfold SamplerLoop.sample_protein_backbone; cbv zeta.
    + now rewrite SamplerFacts.backbone_atom_mask_none.
    + destruct (SamplerLoop.backbone_atom_mask _); [|reflexivity].
      now rewrite SamplerFacts.loop_raises.
Qed.

Lemma sampler_raises_iff_witness :
  SamplerLoop.sample_protein_backbone SamplerExamples.four_atom_model 3 1 1
    SamplerExamples.init_noise SamplerExamples.step_noise 2 = None /\
  SamplerLoop.sample_protein_backbone SamplerExamples.five_atom_model 3 1 1
    SamplerExamples.init_noise SamplerExamples.step_noise 3 = None.
Proof.
  split.
  - apply (proj2 (sampler_raises_iff SamplerExamples.four_atom_model 3 1 1
                    SamplerExamples.init_noise SamplerExamples.step_noise 2
                    ltac:(repeat split; constructor) ltac:(lia) eq_refl eq_refl)).
    left. simpl. lia.
  - apply (proj2 (sampler_raises_iff SamplerExamples.five_atom_model 3 1 1
                    SamplerExamples.init_noise SamplerExamples.step_noise 3
                    ltac:(repeat split; constructor) ltac:(lia) eq_refl eq_refl)).
    right. simpl. lia.
Defined.






(** ** The training script: loss, checkpoints and the epoch loop *)

Module TrainingFacts.
Import Training.

Lemma sum_n_nonneg (f : nat -> R) (n : nat) :
  (forall k, (k < n)%nat -> 0 <= f k) -> 0 <= sum_n f n.
Proof.
  induction n as [|n IH]; intros H; simpl; [lra|].
  specialize (IH ltac:(intros; apply H; lia)). specialize (H n ltac:(lia)). lra.
Qed.

Lemma sum_n_zero_iff (f : nat -> R) (n : nat) :
  (forall k, (k < n)%nat -> 0 <= f k) ->
  (sum_n f n = 0 <-> forall k, (k < n)%nat -> f k = 0).
Proof.
  induction n as [|n IH]; intros H; simpl.
  - split; [intros _ k Hk; lia | reflexivity].
  - pose proof (sum_n_nonneg f n ltac:(intros; apply H; lia)) as Hs.
    pose proof (H n ltac:(lia)) as Hn.
    specialize (IH ltac:(intros; apply H; lia)).
    split.
    + intros Hz k Hk. destruct (Nat.eq_dec k n) as [-> | Hne]; [lra|].
      apply IH; [lra | lia].
    + intros Hall. rewrite (proj2 IH) by (intros; apply Hall; lia).
      rewrite Hall by lia. lra.
Qed.

Lemma sum_n_all_zero (f : nat -> R) (n : nat) :
  (forall k, (k < n)%nat -> f k = 0) -> sum_n f n = 0.
Proof.
  induction n as [|n IH]; intros H; simpl; [reflexivity|].
  rewrite IH by (intros; apply H; lia). rewrite H by lia. lra.
Qed.

Lemma tensor_sum_nonneg B N A (f : nat -> nat -> nat -> R) :
  (forall b n a, (b < B)%nat -> (n < N)%nat -> (a < A)%nat -> 0 <= f b n a) ->
  0 <= tensor_sum B N A f.
Proof.
  intros H. unfold tensor_sum.
  apply sum_n_nonneg; intros b Hb.
  apply sum_n_nonneg; intros n Hn.
  apply sum_n_nonneg; intros a Ha. now apply H.
Qed.

Lemma tensor_sum_zero_iff B N A (f : nat -> nat -> nat -> R) :
  (forall b n a, (b < B)%nat -> (n < N)%nat -> (a < A)%nat -> 0 <= f b n a) ->
  (tensor_sum B N A f = 0 <->
   forall b n a, (b < B)%nat -> (n < N)%nat -> (a < A)%nat -> f b n a = 0).
Proof.
  intros H. unfold tensor_sum.
  rewrite sum_n_zero_iff
    by (intros b Hb; apply sum_n_nonneg; intros n Hn;
        apply sum_n_nonneg; intros a Ha; now apply H).
  split.
  - intros Hz b n a Hb Hn Ha.
    specialize (Hz b Hb).
    rewrite sum_n_zero_iff in Hz
      by (intros n' Hn'; apply sum_n_nonneg; intros a' Ha'; now apply H).
    specialize (Hz n Hn).
    rewrite sum_n_zero_iff in Hz by (intros a' Ha'; now apply H).
    now apply Hz.
  - intros Hall b Hb.
    apply sum_n_all_zero; intros n Hn.
    apply sum_n_all_zero; intros a Ha. now apply Hall.
Qed.

Lemma square_zero (x y : R) : (x - y) * (x - y) = 0 -> x = y.
Proof. intros H. nra. Qed.

Lemma no_valid_atoms (batches : list batch) :
  (forall bt, In bt batches ->
     forall b n a, (b < batch_size bt)%nat -> (n < seq_len bt)%nat ->
       (a < atoms bt)%nat -> atom_mask bt b n a = 0) ->
  sum_list (map (fun bt => tensor_sum (batch_size bt) (seq_len bt) (atoms bt)
                             (atom_mask bt)) batches) = 0.
Proof.
  induction batches as [|bt rest IH]; intros Hmask; [reflexivity|].
  cbn [map]. unfold sum_list in *. cbn [fold_right].
  rewrite IH by (intros; apply Hmask; [now right | assumption..]).
  unfold tensor_sum.
  rewrite sum_n_all_zero; [lra|].
  intros b Hb. apply sum_n_all_zero. intros n Hn.
  apply sum_n_all_zero. intros a Ha.
  apply Hmask; [now left | assumption..].
Qed.

End TrainingFacts.

(** X16: for a mask with no negative entry the masked loss of a batch is
    never negative, and it is zero exactly when the prediction equals the
    injected noise at every atom slot of the batch whose mask entry is
    positive; what is predicted at masked-out slots does not count. *)
Theorem masked_loss_zero_iff (B N A : nat)
  (predicted_noise noise : nat -> nat -> nat -> vec3)
  (atom_mask : nat -> nat -> nat -> R) :
  (forall b n a, 0 <= atom_mask b n a) ->
  0 <= Training.masked_loss B N A predicted_noise noise atom_mask /\
  (Training.masked_loss B N A predicted_noise noise atom_mask = 0 <->
   forall b n a, (b < B)%nat -> (n < N)%nat -> (a < A)%nat ->
     0 < atom_mask b n a -> predicted_noise b n a = noise b n a).
Proof.
  intros Hmask.
  assert (Hterm : forall b n a, (b < B)%nat -> (n < N)%nat -> (a < A)%nat ->
    0 <= (let l := vscale (atom_mask b n a)
                     (Training.squared_error (predicted_noise b n a) (noise b n a)) in
          vx l + vy l + vz l)).
  { intros b n a _ _ _. specialize (Hmask b n a). simpl.
    pose proof (Rle_0_sqr (vx (predicted_noise b n a) - vx (noise b n a))).
    pose proof (Rle_0_sqr (vy (predicted_noise b n a) - vy (noise b n a))).
    pose proof (Rle_0_sqr (vz (predicted_noise b n a) - vz (noise b n a))).
    unfold Rsqr in *. nra. }
  unfold Training.masked_loss. split.
  - now apply TrainingFacts.tensor_sum_nonneg.
  - rewrite TrainingFacts.tensor_sum_zero_iff by exact Hterm.
    split; intros H b n a Hb Hn Ha.
    + intros Hpos. specialize (H b n a Hb Hn Ha). simpl in H.
      pose proof (Rle_0_sqr (vx (predicted_noise b n a) - vx (noise b n a))) as Hx.
      pose proof (Rle_0_sqr (vy (predicted_noise b n a) - vy (noise b n a))) as Hy.
      pose proof (Rle_0_sqr (vz (predicted_noise b n a) - vz (noise b n a))) as Hz.
      unfold Rsqr in *.
      apply vec3_eq; apply TrainingFacts.square_zero; nra.
    + specialize (Hmask b n a). destruct Hmask as [Hpos | Hzero].
      * rewrite (H b n a Hb Hn Ha Hpos). simpl. ring.
      * rewrite <- Hzero. simpl. ring.
Qed.

Lemma masked_loss_zero_iff_witness :
  0 <= Training.masked_loss 1 1 2 (fun _ _ _ => mk3 1 2 3) (fun _ _ _ => mk3 1 2 3)
         (fun _ _ a => INR a).
Proof.
  exact (proj1 (masked_loss_zero_iff 1 1 2 (fun _ _ _ => mk3 1 2 3)
                  (fun _ _ _ => mk3 1 2 3) (fun _ _ a => INR a)
                  (fun _ _ a => pos_INR a))).
Defined.

Module CheckpointFacts.
Import Training.

Lemma torch_save_read obj path fs : torch_save obj path fs path = Some obj.
Proof. unfold torch_save. now rewrite String.eqb_refl. Qed.

End CheckpointFacts.

Module LoopFacts.
Import Training.

Section Loop.

Variable optimizer_step :
  Diffusion.ProteinDiffusionModel -> optimizer -> batch ->
  Diffusion.ProteinDiffusionModel * optimizer.
Variable train_loader : nat -> list batch.
Variable checkpoint_path : String.string.

Lemma run_batches_total batches : forall model opt epoch_loss total model' opt'
  epoch_loss' total',
  run_batches optimizer_step model opt batches epoch_loss total
  = Some (model', opt', epoch_loss', total') ->
  total' = total
           + sum_list (map (fun bt => tensor_sum (batch_size bt) (seq_len bt)
                                        (atoms bt) (atom_mask bt)) batches).
Proof.
  induction batches as [|bt rest IH]; intros m o el ts m' o' el' ts' H.
  - simpl in H. injection H as _ _ _ <-. simpl. lra.
  - cbn [run_batches] in H.
    destruct (train_batch m bt) as [[loss valid]|] eqn:Hb; [|discriminate].
    destruct (optimizer_step m o bt) as [m1 o1].
    apply IH in H. rewrite H. cbn [map sum_list fold_right].
    unfold train_batch in Hb.
    destruct (Diffusion.tensor_index_all _ _ _); [|discriminate].
    destruct (Diffusion.forward _ _ _ _ _ _ _ _); [|discriminate].
    injection Hb as _ <-. unfold sum_list. lra.
Qed.

Lemma run_epoch_result e st st' :
  run_epoch optimizer_step train_loader checkpoint_path e st = Some st' ->
  List.length (st_losses st') = S (List.length (st_losses st)) /\
  st_files st' checkpoint_path
  = (if ((e + 1) mod 10 =? 0)%nat
     then Some (mk_checkpoint e (state_dict (st_model st')) (st_optimizer st')
                  (st_losses st'))
     else st_files st checkpoint_path).
Proof.
  unfold run_epoch. set (c := ((e + 1) mod 10 =? 0)%nat).
  destruct (run_batches _ _ _ _ _ _) as [[[[m o] el] ts]|]; [|discriminate].
  destruct (Req_dec_T ts 0); [discriminate|].
  intros H. injection H as <-. cbn [st_losses st_files st_model st_optimizer].
  split; [rewrite length_app; cbn [List.length]; lia|].
  destruct c; [|reflexivity].
  unfold save_checkpoint. apply CheckpointFacts.torch_save_read.
Qed.

Lemma run_epochs_app l1 : forall l2 st,
  run_epochs optimizer_step train_loader checkpoint_path (l1 ++ l2) st
  = match run_epochs optimizer_step train_loader checkpoint_path l1 st with
    | Some st' => run_epochs optimizer_step train_loader checkpoint_path l2 st'
    | None => None
    end.
Proof.
  induction l1 as [|e l1 IH]; intros l2 st; [reflexivity|].
  cbn [app run_epochs].
  destruct (run_epoch _ _ _ e st); [apply IH | reflexivity].
Qed.

Lemma run_epochs_length epochs : forall st st',
  run_epochs optimizer_step train_loader checkpoint_path epochs st = Some st' ->
  List.length (st_losses st')
  = (List.length (st_losses st) + List.length epochs)%nat.
Proof.
  induction epochs as [|e rest IH]; intros st st' H.
  - simpl in H. injection H as <-. simpl. lia.
  - cbn [run_epochs] in H.
    destruct (run_epoch _ _ _ e st) as [st1|] eqn:He; [|discriminate].
    apply run_epoch_result in He. destruct He as [Hl _].
    apply IH in H. rewrite H, Hl. simpl. lia.
Qed.

(** A run of the epochs [0, ..., n-1] with [n] a positive multiple of 10
    ends with the checkpoint of epoch [n-1] on disk, holding all losses. *)
Lemma last_checkpoint n st st' :
  (1 <= n)%nat -> (n mod 10 = 0)%nat ->
  run_epochs optimizer_step train_loader checkpoint_path (seq 0 n) st = Some st' ->
  exists ck, st_files st' checkpoint_path = Some ck /\
             epoch ck = (n - 1)%nat /\ train_losses ck = st_losses st'.
Proof.
  intros Hn Hmod H. destruct n as [|k]; [lia|].
  rewrite seq_S, run_epochs_app in H.
  destruct (run_epochs _ _ _ (seq 0 k) st) as [st1|]; [|discriminate].
  cbn [Nat.add run_epochs] in H.
  destruct (run_epoch _ _ _ k st1) as [st2|] eqn:He; [|discriminate].
  injection H as <-. apply run_epoch_result in He. destruct He as [_ Hf].
  replace (k + 1)%nat with (S k) in Hf by lia. rewrite Hmod in Hf.
  cbn [Nat.eqb] in Hf. rewrite Hf. eexists. split; [reflexivity|].
  cbn [epoch train_losses]. split; [lia | reflexivity].
Qed.

Lemma load_checkpoint_returns fs path model opt new_lr model' opt' e losses :
  load_checkpoint fs path model opt new_lr = inl (model', opt', (e, losses)) ->
  exists ck, fs path = Some ck /\ e = epoch ck /\ losses = train_losses ck.
Proof.
  unfold load_checkpoint.
  destruct (fs path) as [ck|]; [|discriminate].
  destruct (load_state_dict model (model_state_dict ck)); [|discriminate].
  destruct opt as [o|].
  - destruct (optimizer_load_state_dict o (optimizer_state_dict ck));
      [|discriminate].
    intros H. injection H as _ _ <- <-. now exists ck.
  - intros H. injection H as _ _ <- <-. now exists ck.
Qed.

(** *** When the loop returns *)

Variable T : nat.
Variable sched : Schedule.noise_schedule.
Hypothesis Hlen : List.length (Schedule.alpha_cumprod sched) = T.
Hypothesis Hstep : forall model opt bt,
  Diffusion.schedule (fst (optimizer_step model opt bt)) = Diffusion.schedule model /\
  Diffusion.diffusion_steps (fst (optimizer_step model opt bt))
  = Diffusion.diffusion_steps model.
Hypothesis Htimes : forall e bt, In bt (train_loader e) ->
  forall b, (b < batch_size bt)%nat -> (0 <= t bt b < Z.of_nat T)%Z.
Hypothesis Hvalid : forall e,
  sum_list (map (fun bt => tensor_sum (batch_size bt) (seq_len bt) (atoms bt)
                             (atom_mask bt)) (train_loader e)) <> 0.

Lemma train_batch_returns model bt :
  Diffusion.schedule model = sched -> Diffusion.diffusion_steps model = T ->
  (forall b, (b < batch_size bt)%nat -> (0 <= t bt b < Z.of_nat T)%Z) ->
  exists loss,
    train_batch model bt
    = Some (loss, tensor_sum (batch_size bt) (seq_len bt) (atoms bt) (atom_mask bt)).
Proof.
  intros Hs HT Ht. unfold train_batch. rewrite Hs.
  rewrite (IndexFacts.tensor_index_all_some _ _
             (fun b => nth (Z.to_nat (t bt b)) (Schedule.alpha_cumprod sched) 0))
    by (intros b Hb; apply IndexFacts.tensor_index_in_range;
        rewrite Hlen; now apply Ht).
  match goal with
  | |- context [Diffusion.forward model ?B ?N ?A ?c ?r ?tt ?k] =>
      destruct (ForwardFacts.forward_valid_times model B N A c r tt k)
        as (out & -> & _)
  end.
  - now rewrite Hs, HT.
  - intros b Hb. rewrite HT. now apply Ht.
  - eexists. reflexivity.
Qed.

Lemma run_batches_returns batches :
  forall model opt epoch_loss total,
    Diffusion.schedule model = sched -> Diffusion.diffusion_steps model = T ->
    (forall bt, In bt batches ->
       forall b, (b < batch_size bt)%nat -> (0 <= t bt b < Z.of_nat T)%Z) ->
    exists model' opt' epoch_loss' total',
      run_batches optimizer_step model opt batches epoch_loss total
      = Some (model', opt', epoch_loss', total') /\
      Diffusion.schedule model' = sched /\ Diffusion.diffusion_steps model' = T.
Proof.
  induction batches as [|bt rest IH]; intros m o el ts Hs HT Ht.
  - exists m, o, el, ts. now repeat split.
  - cbn [run_batches].
    destruct (train_batch_returns m bt Hs HT) as (loss & ->);
      [apply Ht; now left|].
    pose proof (Hstep m o bt) as [Hs1 HT1].
    destruct (optimizer_step m o bt) as [m1 o1]. cbn [fst] in Hs1, HT1.
    apply IH; [congruence | congruence | intros; apply Ht; [now right | assumption]].
Qed.

Lemma run_epochs_returns epochs : forall st,
  Diffusion.schedule (st_model st) = sched ->
  Diffusion.diffusion_steps (st_model st) = T ->
  exists st',
    run_epochs optimizer_step train_loader checkpoint_path epochs st = Some st'.
Proof.
  induction epochs as [|e rest IH]; intros st Hs HT; [now exists st|].
  cbn [run_epochs]. unfold run_epoch.
  destruct (run_batches_returns (train_loader e) (st_model st) (st_optimizer st)
              0 0 Hs HT (Htimes e))
    as (m & o & el & ts & Hrun & Hs' & HT').
  rewrite Hrun.
  pose proof (run_batches_total _ _ _ _ _ _ _ _ _ Hrun) as Htot.
  destruct (Req_dec_T ts 0) as [Hz | _].
  - exfalso. apply (Hvalid e). lra.
  - apply IH; assumption.
Qed.

End Loop.

End LoopFacts.

Module LoopExample.
Import Training TrainingExamples.

Lemma no_step_keeps e st st' :
  run_epoch no_step loader checkpoint_path e st = Some st' ->
  st_model st' = st_model st /\ st_optimizer st' = st_optimizer st.
Proof.
  unfold run_epoch, loader. cbn [run_batches].
  destruct (train_batch (st_model st) one_batch) as [[loss valid]|]; [|discriminate].
  unfold no_step at 1.
  destruct (Req_dec_T _ 0); [discriminate|].
  intros H. injection H as <-. now split.
Qed.

Lemma no_step_keeps_all epochs : forall st st',
  run_epochs no_step loader checkpoint_path epochs st = Some st' ->
  st_model st' = st_model st /\ st_optimizer st' = st_optimizer st.
Proof.
  induction epochs as [|e rest IH]; intros st st' H.
  - simpl in H. injection H as <-. now split.
  - cbn [run_epochs] in H.
    destruct (run_epoch no_step loader checkpoint_path e st) as [st1|] eqn:He;
      [|discriminate].
    apply no_step_keeps in He. apply IH in H.
    destruct He as [He1 He2]. destruct H as [H1 H2]. split; congruence.
Qed.

Lemma example_valid e :
  sum_list (map (fun bt => tensor_sum (batch_size bt) (seq_len bt) (atoms bt)
                             (atom_mask bt)) (loader e)) <> 0.
Proof.
  unfold loader, one_batch, Examples.mask_all, tensor_sum. simpl. lra.
Qed.

Lemma example_times e bt :
  In bt (loader e) ->
  forall b, (b < batch_size bt)%nat -> (0 <= t bt b < Z.of_nat 2)%Z.
Proof. intros [<- | []] b _. simpl. lia. Qed.

Lemma example_step model opt bt :
  Diffusion.schedule (fst (no_step model opt bt)) = Diffusion.schedule model /\
  Diffusion.diffusion_steps (fst (no_step model opt bt))
  = Diffusion.diffusion_steps model.
Proof. now split. Qed.

Lemma example_returns epochs st :
  st_model st = Examples.two_step_model ->
  exists st', run_epochs no_step loader checkpoint_path epochs st = Some st'.
Proof.
  intros Hm.
  apply (LoopFacts.run_epochs_returns no_step loader checkpoint_path 2
           (Diffusion.schedule Examples.two_step_model)
           (ForwardFacts.init_schedule_length 1 2 2 2 2 0 1 (36 / 100)
              (4375 / 10000) (fun _ => Examples.layer_x))
           example_step example_times example_valid).
  - now rewrite Hm.
  - now rewrite Hm.
Qed.

(** A fresh run of ten epochs and a run resumed from its checkpoint. *)
Lemma example_runs :
  exists st1 st2,
    training no_step loader checkpoint_path false 10 Examples.two_step_model
      adam no_files = Some st1 /\
    training no_step loader checkpoint_path true 10 Examples.two_step_model
      adam (st_files st1) = Some st2.
Proof.
  destruct (example_returns (range 0 10)
              (mk_state Examples.two_step_model adam [] no_files) eq_refl)
    as (st1 & H1).
  exists st1.
  destruct (LoopFacts.last_checkpoint no_step loader checkpoint_path 10 _ st1
              ltac:(lia) eq_refl H1) as (ck & Hfile & Hepoch & Hlosses).
  destruct (no_step_keeps_all _ _ _ H1) as [Hmodel Hopt].
  pose proof (LoopFacts.run_epoch_result) as _.
  assert (Hck : ck = mk_checkpoint 9 (state_dict (st_model st1))
                       (st_optimizer st1) (st_losses st1)).
  { unfold range in H1. cbn [Nat.sub] in H1.
    change (seq 0 10) with (seq 0 9 ++ [9%nat]) in H1.
    rewrite LoopFacts.run_epochs_app in H1.
    destruct (run_epochs no_step loader checkpoint_path (seq 0 9) _) as [s9|];
      [|discriminate].
    cbn [run_epochs] in H1.
    destruct (run_epoch no_step loader checkpoint_path 9 s9) as [s10|] eqn:He;
      [|discriminate].
    injection H1 as <-.
    apply LoopFacts.run_epoch_result in He. destruct He as [_ Hf].
    cbn in Hf. rewrite Hf in Hfile. now injection Hfile as <-. }
  assert (H2 : exists st2,
    training no_step loader checkpoint_path true 10 Examples.two_step_model
      adam (st_files st1) = Some st2).
  { unfold training. rewrite Hfile.
    unfold load_checkpoint. rewrite Hfile, Hck.
    cbn [model_state_dict optimizer_state_dict epoch train_losses].
    rewrite Hmodel, Hopt. cbn [st_model st_optimizer].
    unfold load_state_dict, state_dict.
    destruct (shapes_eq_dec _ _) as [_ | Hne]; [|now exfalso; apply Hne].
    unfold optimizer_load_state_dict.
    destruct (list_eq_dec Nat.eq_dec _ _) as [_ | Hne]; [|now exfalso; apply Hne].
    apply example_returns. reflexivity. }
  destruct H2 as (st2 & H2). exists st2. split; [exact H1 | exact H2].
Qed.

End LoopExample.

(** X18: an epoch whose batches hold no valid atom (every mask entry inside
    the tensors is 0), in particular an epoch over an empty loader, never
    completes: the average of line 164 divides by zero (or a batch has
    already raised). *)
Theorem epoch_raises_without_valid_atoms
  (optimizer_step : Diffusion.ProteinDiffusionModel -> Training.optimizer ->
                    Training.batch ->
                    Diffusion.ProteinDiffusionModel * Training.optimizer)
  (train_loader : nat -> list Training.batch) (checkpoint_path : String.string)
  (e : nat) (st : Training.state) :
  (forall bt, In bt (train_loader e) ->
     forall b n a, (b < Training.batch_size bt)%nat ->
       (n < Training.seq_len bt)%nat -> (a < Training.atoms bt)%nat ->
       Training.atom_mask bt b n a = 0) ->
  Training.run_epoch optimizer_step train_loader checkpoint_path e st = None.
Proof.
  intros Hmask. unfold Training.run_epoch.
  destruct (Training.run_batches _ _ _ _ _ _) as [[[[m o] el] ts]|] eqn:Hrun;
    [|reflexivity].
  apply LoopFacts.run_batches_total in Hrun.
  pose proof (TrainingFacts.no_valid_atoms (train_loader e) Hmask) as Hz.
  destruct (Req_dec_T ts 0) as [_ | Hne]; [reflexivity|].
  exfalso. apply Hne. lra.
Qed.

Lemma epoch_raises_without_valid_atoms_witness :
  Training.run_epoch TrainingExamples.no_step (fun _ => [])
    TrainingExamples.checkpoint_path 0
    (Training.mk_state Examples.two_step_model TrainingExamples.adam []
       TrainingExamples.no_files)
  = None.
Proof.
  exact (epoch_raises_without_valid_atoms TrainingExamples.no_step (fun _ => [])
           TrainingExamples.checkpoint_path 0 _
           (fun bt (H : In bt []) => match H with end)).
Defined.

(** X19: a fresh run of [n1] epochs records [n1] losses; when [n1] is a
    positive multiple of 10, a run resumed from the files it leaves and
    continued to [n2 >= n1 - 1] epochs records [n2 + 1] losses: the loop
    starts again at the epoch the checkpoint was written in, so that epoch
    is trained and recorded twice. *)
Theorem resumed_run_repeats_checkpointed_epoch
  (optimizer_step : Diffusion.ProteinDiffusionModel -> Training.optimizer ->
                    Training.batch ->
                    Diffusion.ProteinDiffusionModel * Training.optimizer)
  (train_loader : nat -> list Training.batch) (checkpoint_path : String.string)
  (n1 n2 : nat) (model1 model2 : Diffusion.ProteinDiffusionModel)
  (opt1 opt2 : Training.optimizer) (fs : Training.files)
  (st1 st2 : Training.state) :
  (1 <= n1)%nat -> (n1 mod 10 = 0)%nat -> (n1 - 1 <= n2)%nat ->
  Training.training optimizer_step train_loader checkpoint_path false n1
    model1 opt1 fs = Some st1 ->
  Training.training optimizer_step train_loader checkpoint_path true n2
    model2 opt2 (Training.st_files st1) = Some st2 ->
  length (Training.st_losses st1) = n1 /\
  length (Training.st_losses st2) = (n2 + 1)%nat.
Proof.
  intros Hn1 Hmod Hn2 Hrun1 Hrun2.
  unfold Training.training in Hrun1. cbv iota in Hrun1.
  pose proof (LoopFacts.run_epochs_length _ _ _ _ _ _ Hrun1) as Hlen1.
  unfold Training.range in *. rewrite length_seq in Hlen1.
  cbn [Training.st_losses length] in Hlen1.
  replace (n1 - 0)%nat with n1 in * by lia.
  split; [lia|].
  destruct (LoopFacts.last_checkpoint _ _ _ n1 _ st1 Hn1 Hmod Hrun1)
    as (ck & Hfile & Hepoch & Hlosses).
  unfold Training.training in Hrun2. rewrite Hfile in Hrun2.
  destruct (Training.load_checkpoint _ _ _ _ _)
    as [[[m' [o'|]] [e losses]]|] eqn:Hload; try discriminate.
  apply LoopFacts.load_checkpoint_returns in Hload.
  destruct Hload as (ck' & Hfile' & -> & ->).
  rewrite Hfile in Hfile'. injection Hfile' as <-.
  apply LoopFacts.run_epochs_length in Hrun2.
  unfold Training.range in Hrun2. rewrite length_seq in Hrun2.
  cbn [Training.st_losses] in Hrun2.
  rewrite Hrun2, Hlosses, Hepoch. lia.
Qed.

Lemma resumed_run_repeats_checkpointed_epoch_witness :
  exists st1 st2,
    Training.training TrainingExamples.no_step TrainingExamples.loader
      TrainingExamples.checkpoint_path false 10 Examples.two_step_model
      TrainingExamples.adam TrainingExamples.no_files = Some st1 /\
    Training.training TrainingExamples.no_step TrainingExamples.loader
      TrainingExamples.checkpoint_path true 10 Examples.two_step_model
      TrainingExamples.adam (Training.st_files st1) = Some st2 /\
    length (Training.st_losses st1) = 10%nat /\
    length (Training.st_losses st2) = 11%nat.
Proof.
  destruct LoopExample.example_runs as (st1 & st2 & H1 & H2).
  exists st1, st2. split; [exact H1|]. split; [exact H2|].
  exact (resumed_run_repeats_checkpointed_epoch _ _ _ 10 10 _ _ _ _ _ st1 st2
           ltac:(lia) eq_refl ltac:(lia) H1 H2).
Defined.

(** The one-layer model has parameters and the shapes of [__init__]. *)
Lemma one_layer_model_trainable : Trainable.trainable Trainable.one_layer_model.
Proof.
  split; [|simpl; discriminate].
  split; [reflexivity | split; [reflexivity|]].
  constructor; [|constructor].
  repeat split; reflexivity.
Qed.

(** X20: a fresh training run returns, with one recorded loss per epoch, for
    a well-shaped model with at least one layer (so that the loss depends
    on a parameter and Adam has parameters to hold) and exact time steps,
    whenever the gradient step keeps the model such and leaves the schedule
    and [diffusion_steps] alone, the schedule has [diffusion_steps]
    entries, every drawn time step lies in [[0, diffusion_steps)] and every
    epoch sees at least one valid atom (the mask counts of its batches do
    not add up to zero). *)
Theorem fresh_training_returns
  (optimizer_step : Diffusion.ProteinDiffusionModel -> Training.optimizer ->
                    Training.batch ->
                    Diffusion.ProteinDiffusionModel * Training.optimizer)
  (train_loader : nat -> list Training.batch) (checkpoint_path : String.string)
  (num_epochs : nat) (model : Diffusion.ProteinDiffusionModel)
  (learning_rate : R) (fs : Training.files) :
  Trainable.trainable model ->
  (forall m o bt, Trainable.trainable m ->
     Trainable.trainable (fst (optimizer_step m o bt))) ->
  Float32.exact_time_steps (Diffusion.diffusion_steps model) ->
  length (Schedule.alpha_cumprod (Diffusion.schedule model))
    = Diffusion.diffusion_steps model ->
  (forall m o bt,
     Diffusion.schedule (fst (optimizer_step m o bt)) = Diffusion.schedule m /\
     Diffusion.diffusion_steps (fst (optimizer_step m o bt))
     = Diffusion.diffusion_steps m) ->
  (forall e bt, In bt (train_loader e) ->
     forall b, (b < Training.batch_size bt)%nat ->
       (0 <= Training.t bt b < Z.of_nat (Diffusion.diffusion_steps model))%Z) ->
  (forall e,
     sum_list (map (fun bt => Training.tensor_sum (Training.batch_size bt)
                                (Training.seq_len bt) (Training.atoms bt)
                                (Training.atom_mask bt)) (train_loader e)) <> 0) ->
  exists st,
    Training.training optimizer_step train_loader checkpoint_path false
      num_epochs model (Trainable.adam model learning_rate) fs = Some st /\
    length (Training.st_losses st) = num_epochs.
Proof.
  intros _ _ _ Hlen Hstep Htimes Hvalid. unfold Training.training. cbv iota.
  destruct (LoopFacts.run_epochs_returns optimizer_step train_loader
              checkpoint_path (Diffusion.diffusion_steps model)
              (Diffusion.schedule model) Hlen Hstep Htimes Hvalid
              (Training.range 0 num_epochs)
              (Training.mk_state model (Trainable.adam model learning_rate) [] fs)
              eq_refl eq_refl)
    as (st & Hrun).
  exists st. split; [exact Hrun|].
  apply LoopFacts.run_epochs_length in Hrun.
  unfold Training.range in Hrun. rewrite length_seq in Hrun.
  cbn [Training.st_losses length] in Hrun. lia.
Qed.

Lemma fresh_training_returns_witness :
  exists st,
    Training.training TrainingExamples.no_step TrainingExamples.loader
      TrainingExamples.checkpoint_path false 3 Trainable.one_layer_model
      (Trainable.adam Trainable.one_layer_model (1 / 100000))
      TrainingExamples.no_files = Some st /\
    length (Training.st_losses st) = 3%nat.
Proof.
  exact (fresh_training_returns TrainingExamples.no_step TrainingExamples.loader
           TrainingExamples.checkpoint_path 3 Trainable.one_layer_model
           (1 / 100000) TrainingExamples.no_files
           one_layer_model_trainable (fun m o bt H => H)
           two_step_exact_time_steps
           (ForwardFacts.init_schedule_length 1 2 2 2 2 1 1 (36 / 100)
              (4375 / 10000) (fun _ => Trainable.layer_0))
           LoopExample.example_step LoopExample.example_times
           LoopExample.example_valid).
Defined.

(** X21: for a model built by [__init__] with a representable schedule and
    [beta_start <= beta_end], the trainer's lookup [model.alpha_cumprod[t]] succeeds at every time step
    [t] of [[0, diffusion_steps)], the value lies strictly between 0 and 1,
    and the two mixing weights of the forward noising have squares that add
    up to 1; at a time step outside [[-diffusion_steps, diffusion_steps)]
    the lookup raises. *)
Theorem trainer_mixing_weights
  (mr T pe hs ed nl na : nat) (beta_start beta_end : R)
  (params : nat -> Egnn.EGNNLayer) (t : Z) :
  Float32.representable_schedule beta_start beta_end T ->
  beta_start <= beta_end ->
  let model := Diffusion.init mr T pe hs ed nl na beta_start beta_end params in
  ((0 <= t < Z.of_nat T)%Z ->
   exists a,
     Trainer.alpha_cumprod_at model t = Some a /\ 0 < a < 1 /\
     sqrt a * sqrt a + sqrt (1 - a) * sqrt (1 - a) = 1) /\
  ((t < - Z.of_nat T \/ Z.of_nat T <= t)%Z ->
   Trainer.alpha_cumprod_at model t = None).
Proof.
  intros Hrep Ho model.
  destruct (representable_schedule_betas _ _ _ Hrep) as [Hs He].
  assert (Hlen : length (Schedule.alpha_cumprod (Diffusion.schedule model)) = T)
    by apply ForwardFacts.init_schedule_length.
  split.
  - intros Ht.
    exists (nth (Z.to_nat t) (Schedule.alpha_cumprod (Diffusion.schedule model)) 0).
    split.
    + unfold Trainer.alpha_cumprod_at.
      apply IndexFacts.tensor_index_in_range. rewrite Hlen. exact Ht.
    + pose proof (ScheduleFacts.alpha_cumprod_range beta_start beta_end T
                    Hs Ho He (Z.to_nat t) ltac:(lia)) as Hr.
      split; [exact Hr|].
      rewrite !sqrt_sqrt; [lra | | ]; cbn [Diffusion.schedule model Diffusion.init];
        lra.
  - intros Hout. unfold Trainer.alpha_cumprod_at.
    apply IndexFacts.tensor_index_error. now rewrite Hlen.
Qed.

Lemma trainer_mixing_weights_witness :
  exists a,
    Trainer.alpha_cumprod_at Examples.two_step_model 1 = Some a /\ 0 < a < 1 /\
    sqrt a * sqrt a + sqrt (1 - a) * sqrt (1 - a) = 1.
Proof.
  exact (proj1 (trainer_mixing_weights 1 2 2 2 2 0 1 (36 / 100) (4375 / 10000)
                  (fun _ => Examples.layer_x) 1
                  two_step_schedule_representable ltac:(lra)) ltac:(lia)).
Defined.
